(** * intake-esgf: the catalog of [intake_esgf/catalog.py]

    A shallow embedding of [ESGFCatalog] (search, the two group-wise filters,
    key generation and the per-record file resolution of [to_dataset_dict])
    together with the properties of its behaviour.

    - a pandas [DataFrame] is a list of column names and a list of rows, each
      row carrying its index label and one string cell per column;
    - Python exceptions are values of [Exn]; a method is a computation in the
      monad [M], which threads the catalog object ([self]), the outside world
      seen by the collaborators, the store of caller-visible list objects and
      the log of collaborator calls, and which keeps the state reached when an
      exception is raised;
    - the functions imported from [intake_esgf.core] and the third-party
      libraries ([globus_sdk], [xarray], [datatree]) are the fields of [Env]. *)

From Stdlib Require Import List String Ascii Bool Arith Lia Permutation.
From Stdlib Require OrderedTypeEx.
Import ListNotations.
Open Scope string_scope.

(** ** Exceptions and results *)

(** The exception classes that the catalog raises or tests for. A subclass is
    identified with the class an [except] clause would catch it under;
    [OtherError] stands for every class the catalog never names. *)
Inductive Exn : Type :=
| ValueError (msg : string)
| SearchAPIError
| KeyError (key : string)
| AttributeError (name : string)
| UnboundLocalError (name : string)
| FileNotFoundError
| OtherError (cls : string).

Inductive Result (A : Type) : Type :=
| Ok (a : A)
| Raise (e : Exn).
Arguments Ok {A} a.
Arguments Raise {A} e.

(** ** Strings *)

Definition Path := string.

(** [str.join] *)
Definition join (separator : string) (parts : list string) : string :=
  String.concat separator parts.

(** ** Sorting *)

Section Sorting.
Context {A : Type} (leb : A -> A -> bool).

Fixpoint insert_sorted (x : A) (l : list A) : list A :=
  match l with
  | [] => [x]
  | y :: l' => if leb x y then x :: l else y :: insert_sorted x l'
  end.

(** A stable sort: an element stays in front of the later elements it
    compares equal to. *)
Fixpoint stable_sort (l : list A) : list A :=
  match l with
  | [] => []
  | x :: l' => insert_sorted x (stable_sort l')
  end.
End Sorting.

(** ** Data frames *)

(** Cells are strings: a frame of this model has no missing value. The index
    is a list of labels as pandas keeps it, which need not be unique;
    [search] obtains the frame, and so its index, from [combine_results]. *)

Definition Label := nat.
Definition FrameRow : Type := Label * list string.

Record DataFrame : Type := mkDataFrame {
  columns : list string;
  rows : list FrameRow
}.

(** [df.index] and [len(df)] *)
Definition index (d : DataFrame) : list Label := map fst (rows d).
Definition len (d : DataFrame) : nat := List.length (rows d).

Definition has_column (col : string) (d : DataFrame) : bool :=
  existsb (String.eqb col) (columns d).

Fixpoint position (col : string) (cols : list string) : option nat :=
  match cols with
  | [] => None
  | c :: cols' =>
      if String.eqb col c then Some 0
      else match position col cols' with
           | Some i => Some (S i)
           | None => None
           end
  end.

(** [row[col]], for a column of the frame the row belongs to. *)
Definition cell (cols : list string) (col : string) (r : FrameRow) : string :=
  match position col cols with
  | Some i => nth i (snd r) ""
  | None => ""
  end.

(** [df[col]] as the list of its values, top to bottom. *)
Definition column_values (col : string) (d : DataFrame) : list string :=
  map (cell (columns d) col) (rows d).

(** [df[mask]]: the rows selected by a boolean mask. *)
Definition select_rows (keep : FrameRow -> bool) (d : DataFrame) : DataFrame :=
  {| columns := columns d; rows := filter keep (rows d) |}.

Definition label_in (labels : list Label) (l : Label) : bool :=
  existsb (Nat.eqb l) labels.

(** [df.drop(labels)]: a new frame without the rows carrying one of the
    labels; a label that the index does not hold raises [KeyError]. *)
Definition drop_index (labels : list Label) (d : DataFrame) : Result DataFrame :=
  if forallb (label_in (index d)) labels
  then Ok (select_rows (fun r => negb (label_in labels (fst r))) d)
  else Raise (KeyError "not found in axis").

Definition name_in (names : list string) (c : string) : bool :=
  existsb (String.eqb c) names.

Definition drop_cells (cols names : list string) (cells : list string) : list string :=
  map snd (filter (fun cv => negb (name_in names (fst cv))) (combine cols cells)).

(** [df.drop(columns=names)]: a name that is not a column raises [KeyError]. *)
Definition drop_columns (names : list string) (d : DataFrame) : Result DataFrame :=
  if forallb (name_in (columns d)) names
  then Ok {| columns := filter (fun c => negb (name_in names c)) (columns d);
             rows := map (fun r => (fst r, drop_cells (columns d) names (snd r))) (rows d) |}
  else Raise (KeyError "not found in axis").

(** *** groupby *)

Definition GroupKey := list string.

Definition key_eq_dec : forall a b : GroupKey, {a = b} + {a <> b} :=
  list_eq_dec string_dec.

Definition key_eqb (a b : GroupKey) : bool :=
  if key_eq_dec a b then true else false.

(** Tuples of strings compare component by component, left to right. *)
Fixpoint key_leb (a b : GroupKey) : bool :=
  match a, b with
  | [], _ => true
  | _ :: _, [] => false
  | x :: a', y :: b' =>
      if String.eqb x y then key_leb a' b' else String.ltb x y
  end.

Definition key_of (by_cols : list string) (d : DataFrame) (r : FrameRow) : GroupKey :=
  map (fun c => cell (columns d) c r) by_cols.

(** [df.groupby(by).get_group(k)] *)
Definition get_group (by_cols : list string) (d : DataFrame) (k : GroupKey) : DataFrame :=
  select_rows (fun r => key_eqb (key_of by_cols d r) k) d.

Definition group_keys (by_cols : list string) (d : DataFrame) : list GroupKey :=
  stable_sort key_leb (nodup key_eq_dec (map (key_of by_cols d) (rows d))).

Definition groups_of (by_cols : list string) (d : DataFrame) : list (GroupKey * DataFrame) :=
  map (fun k => (k, get_group by_cols d k)) (group_keys by_cols d).

(** Iterating [df.groupby(by)]: one pair (key, sub-frame) for each key that
    occurs, in sorted key order; the sub-frame keeps the rows of [df] with
    that key, with their labels. A missing column raises [KeyError]. *)
Definition groupby (by_cols : list string) (d : DataFrame)
  : Result (list (GroupKey * DataFrame)) :=
  if forallb (fun c => has_column c d) by_cols
  then Ok (groups_of by_cols d)
  else Raise (KeyError "groupby").

(** ** Member identifiers *)

(** [\d], on the ASCII strings of this model. *)
Definition is_digit (c : ascii) : bool :=
  ((48 <=? nat_of_ascii c) && (nat_of_ascii c <=? 57))%nat.

(** The longest run of digits at the front of a string, and what follows. *)
Fixpoint span_digits (s : string) : string * string :=
  match s with
  | String c s' =>
      if is_digit c
      then let (ds, rest) := span_digits s' in (String c ds, rest)
      else (EmptyString, s)
  | EmptyString => (EmptyString, EmptyString)
  end.

(** One literal letter followed by [(\d+)]. The greedy group takes the whole
    run of digits: giving a digit back could only leave a digit in front of
    the next literal, which is a letter. *)
Definition letter_digits (letter : ascii) (s : string) : option (string * string) :=
  match s with
  | String c s' =>
      if Ascii.eqb c letter
      then match span_digits s' with
           | (EmptyString, _) => None
           | (ds, rest) => Some (ds, rest)
           end
      else None
  | EmptyString => None
  end.

Definition Member : Type := string * string * string * string.

(** [re.match] of [r(\d+)i(\d+)p(\d+)f(\d+)] at the front of [s]. *)
Definition match_member_here (s : string) : option Member :=
  match letter_digits "r"%char s with
  | Some (r, s1) =>
      match letter_digits "i"%char s1 with
      | Some (i, s2) =>
          match letter_digits "p"%char s2 with
          | Some (p, s3) =>
              match letter_digits "f"%char s3 with
              | Some (f, _) => Some (r, i, p, f)
              | None => None
              end
          | None => None
          end
      | None => None
      end
  | None => None
  end.

(** [Series.str.extract] applies [re.search] to each value: the leftmost
    match, anywhere in the string; [None] is the row of NaN of a value
    without a match. The groups are strings. *)
Fixpoint extract_member (s : string) : option Member :=
  match match_member_here s with
  | Some m => Some m
  | None =>
      match s with
      | String _ s' => extract_member s'
      | EmptyString => None
      end
  end.

(** Lexicographic comparison of the four extracted columns, whose values are
    strings. *)
Definition member_leb (a b : Member) : bool :=
  let '(a0, a1, a2, a3) := a in
  let '(b0, b1, b2, b3) := b in
  key_leb [a0; a1; a2; a3] [b0; b1; b2; b3].

(** [sort_values] puts the rows of NaN last. *)
Definition extracted_leb (a b : option Member) : bool :=
  match a, b with
  | Some x, Some y => member_leb x y
  | Some _, None => true
  | None, Some _ => false
  | None, None => true
  end.

(** [.sort_values([0, 1, 2, 3])] *)
Definition sort_values (l : list (option Member)) : list (option Member) :=
  stable_sort extracted_leb l.

(** [str.format] on the template r{}i{}p{}f{} with the four values of the
    row; NaN formats as [nan]. *)
Definition format_member (m : option Member) : string :=
  match m with
  | Some (r, i, p, f) => "r" ++ r ++ "i" ++ i ++ "p" ++ p ++ "f" ++ f
  | None => "r" ++ "nan" ++ "i" ++ "nan" ++ "p" ++ "nan" ++ "f" ++ "nan"
  end.

(** The member identifier that [remove_ensembles] computes for a group, which
    is never empty: [.iloc[0]] of the sorted extraction. *)
Definition smallest_member (member_ids : list string) : string :=
  format_member (hd None (sort_values (map extract_member member_ids))).

(** ** The monad of method calls *)

(** A computation runs from a state to a state and either a value or a raised
    exception; the state reached at the raise is kept, as the mutations a
    Python method made before raising are. *)
Definition M (S A : Type) : Type := S -> S * Result A.

Definition ret {S A : Type} (a : A) : M S A := fun st => (st, Ok a).

Definition raise {S A : Type} (e : Exn) : M S A := fun st => (st, Raise e).

Definition bind {S A B : Type} (c : M S A) (k : A -> M S B) : M S B :=
  fun st =>
    match c st with
    | (st', Ok a) => k a st'
    | (st', Raise e) => (st', Raise e)
    end.

(** A pure step that may raise. *)
Definition lift {S A : Type} (r : Result A) : M S A := fun st => (st, r).

(** [try: c / except <handles>: handler] *)
Definition try_except {S A : Type}
  (c : M S A) (handles : Exn -> bool) (handler : M S A) : M S A :=
  fun st =>
    match c st with
    | (st', Ok a) => (st', Ok a)
    | (st', Raise e) => if handles e then handler st' else (st', Raise e)
    end.

Declare Scope monad_scope.
Delimit Scope monad_scope with monad.
Notation "x <- c ;; k" := (bind c (fun x => k))
  (at level 61, c at next level, right associativity) : monad_scope.
Notation "c ;; k" := (bind c (fun _ => k))
  (at level 61, right associativity) : monad_scope.
Open Scope monad_scope.

(** ** The catalog *)

(** The keyword arguments of [search]: a facet name with the value or values
    asked for. *)
Definition Facets : Type := list (string * list string).

(** The [ignore_facets] argument of [to_dataset_dict]: [None], a string, or a
    list object of the caller, known by its address in the store. *)
Inductive IgnoreFacets : Type :=
| IgnoreNone
| IgnoreStr (s : string)
| IgnoreList (ref : nat).

Definition always_ignored : list string :=
  ["version"; "data_node"; "globus_subject"].

Definition could_not_obtain : string := "Could not obtain this file.".

Definition is_ValueError_or_SearchAPIError (e : Exn) : bool :=
  match e with
  | ValueError _ | SearchAPIError => true
  | _ => false
  end.

Definition is_FileNotFoundError (e : Exn) : bool :=
  match e with
  | FileNotFoundError => true
  | _ => false
  end.

Section Catalog.
Context {World Response Dataset DataTree : Type}.

(** The [search] method of a configured index, applied to the keyword
    arguments of the catalog's [search]: a query against the
    outside world that returns a table or raises. *)
Definition SearchIndex : Type := Facets -> World -> World * Result DataFrame.

(** The attributes of an [ESGFCatalog]. [index_id] is read by
    [to_dataset_dict] and assigned nowhere in the class: it is [None] until
    a caller sets the attribute on the object. *)
Record ESGFCatalog : Type := mkCatalog {
  indices : list SearchIndex;
  df : option DataFrame;
  esgf_data_root : option Path;
  local_cache : Path;
  index_id : option string
}.

(** [ESGFCatalog.__init__], with the three indices it configures. *)
Definition init (solr solr_ornl globus : SearchIndex) (home_esgf : Path) : ESGFCatalog :=
  {| indices := [solr; solr_ornl; globus];
     df := None;
     esgf_data_root := None;
     local_cache := home_esgf;
     index_id := None |}.

(** The values of the dictionary that [to_dataset_dict] returns. *)
Inductive Value : Type :=
| VDataset (d : Dataset)
| VStr (s : string).

(** A Python [dict] with string keys, in insertion order. *)
Definition Dict : Type := list (string * Value).

(** [d[k] = v]: an existing key keeps its place and takes the new value. *)
Fixpoint dict_set (k : string) (v : Value) (d : Dict) : Dict :=
  match d with
  | [] => [(k, v)]
  | (k', v') :: d' =>
      if String.eqb k k' then (k, v) :: d' else (k', v') :: dict_set k v d'
  end.

Fixpoint dict_get (k : string) (d : Dict) : option Value :=
  match d with
  | [] => None
  | (k', v') :: d' => if String.eqb k k' then Some v' else dict_get k d'
  end.

(** The calls made to the collaborators, oldest first. *)
Inductive Call : Type :=
| CallIndexSearch (kwargs : Facets)
| CallPostSearch (index_id subject : string)
| CallLocalFilelist (response : Response) (data_root : Path)
| CallHttpsDownload (response : Response) (cache : Path)
| CallOpenDataset (file : Path)
| CallOpenMfdataset (files : list Path)
| CallFromDict (d : Dict).

(** The collaborators: [combine_results], [response_to_local_filelist] and
    [response_to_https_download] of [intake_esgf.core],
    [SearchClient().post_search], [xr.open_dataset], [xr.open_mfdataset]
    and [DataTree.from_dict]. *)
Record Env : Type := mkEnv {
  combine_results : list DataFrame -> Result DataFrame;
  post_search : string -> string -> World -> World * Result Response;
  response_to_local_filelist : Response -> Path -> World -> World * Result (list Path);
  response_to_https_download : Response -> Path -> World -> World * Result (list Path);
  open_dataset : Path -> World -> World * Result Dataset;
  open_mfdataset : list Path -> World -> World * Result Dataset;
  from_dict : Dict -> World -> World * Result DataTree
}.

Record State : Type := mkState {
  self : ESGFCatalog;
  world : World;
  heap : nat -> list string;
  next_ref : nat;
  calls : list Call
}.

Definition get_self : M State ESGFCatalog := fun st => (st, Ok (self st)).

(** [self.df = d] *)
Definition set_df (d : DataFrame) : M State unit :=
  fun st =>
    let c := self st in
    ({| self := {| indices := indices c; df := Some d;
                   esgf_data_root := esgf_data_root c;
                   local_cache := local_cache c; index_id := index_id c |};
        world := world st; heap := heap st; next_ref := next_ref st;
        calls := calls st |}, Ok tt).

(** [self.df], where a method is about to call a method of the frame: on
    [None] that attribute access raises. *)
Definition get_df : M State DataFrame :=
  fun st =>
    match df (self st) with
    | Some d => (st, Ok d)
    | None => (st, Raise (AttributeError "NoneType"))
    end.

(** A call to a collaborator: logged, then run against the world. *)
Definition extern {A : Type} (c : Call) (f : World -> World * Result A) : M State A :=
  fun st =>
    let (w, r) := f (world st) in
    ({| self := self st; world := w; heap := heap st; next_ref := next_ref st;
        calls := calls st ++ [c] |}, r).

(** A new list object. *)
Definition alloc (v : list string) : M State nat :=
  fun st =>
    ({| self := self st; world := world st;
        heap := fun a => if Nat.eqb a (next_ref st) then v else heap st a;
        next_ref := S (next_ref st); calls := calls st |}, Ok (next_ref st)).

(** [lst += items] on a list object: the object itself grows. *)
Definition extend (ref : nat) (items : list string) : M State unit :=
  fun st =>
    ({| self := self st; world := world st;
        heap := fun a => if Nat.eqb a ref then (heap st ref ++ items)%list else heap st a;
        next_ref := next_ref st; calls := calls st |}, Ok tt).

Definition deref (ref : nat) : M State (list string) :=
  fun st => (st, Ok (heap st ref)).

Variable env : Env.

(** *** search *)

(** The timing and the progress lines that [search] prints are left out. *)

(** The body of the loop of [search]. [df_var] is the local variable [df],
    [None] while nothing was assigned to it; [dfs.append(df)] reads it
    whether or not the [try] assigned it. *)
Fixpoint search_loop (idxs : list SearchIndex) (kwargs : Facets)
    (df_var : option DataFrame) (dfs : list DataFrame) : M State (list DataFrame) :=
  match idxs with
  | [] => ret dfs
  | index :: rest =>
      df_var' <- try_except
                   (d <- extern (CallIndexSearch kwargs) (index kwargs) ;; ret (Some d))
                   is_ValueError_or_SearchAPIError
                   (ret df_var) ;;
      d <- match df_var' with
           | Some d => ret d
           | None => raise (UnboundLocalError "df")
           end ;;
      search_loop rest kwargs df_var' (dfs ++ [d])
  end.

Definition search (kwargs : Facets) : M State unit :=
  c <- get_self ;;
  dfs <- search_loop (indices c) kwargs None [] ;;
  d <- lift (combine_results env dfs) ;;
  set_df d.

(** [self.df = self.df.drop(labels)] *)
Definition drop_step (labels : list Label) : M State unit :=
  cur <- get_df ;;
  cur' <- lift (drop_index labels cur) ;;
  set_df cur'.

(** *** remove_incomplete *)

Definition model_group_columns : list string :=
  ["source_id"; "member_id"; "grid_label"].

Fixpoint remove_incomplete_loop (complete : DataFrame -> bool)
    (groups : list (GroupKey * DataFrame)) : M State unit :=
  match groups with
  | [] => ret tt
  | (lbl, grp) :: rest =>
      (if negb (complete grp)
       then drop_step (index grp)
       else ret tt) ;;
      remove_incomplete_loop complete rest
  end.

Definition remove_incomplete (complete : DataFrame -> bool) : M State unit :=
  d <- get_df ;;
  groups <- lift (groupby model_group_columns d) ;;
  remove_incomplete_loop complete groups.

(** *** remove_ensembles *)

(** [grp.member_id]: attribute access to a column. *)
Definition getattr_column (col : string) (d : DataFrame) : Result (list string) :=
  if has_column col d then Ok (column_values col d)
  else Raise (AttributeError col).

(** [grp[grp.member_id != member_id].index] *)
Definition other_members (grp : DataFrame) (member_id : string) : list Label :=
  index (select_rows
           (fun r => negb (String.eqb (cell (columns grp) "member_id" r) member_id))
           grp).

Fixpoint remove_ensembles_loop (groups : list (GroupKey * DataFrame)) : M State unit :=
  match groups with
  | [] => ret tt
  | (source_id, grp) :: rest =>
      member_ids <- lift (getattr_column "member_id" grp) ;;
      let member_id := smallest_member member_ids in
      drop_step (other_members grp member_id) ;;
      remove_ensembles_loop rest
  end.

Definition remove_ensembles : M State unit :=
  d <- get_df ;;
  groups <- lift (groupby ["source_id"] d) ;;
  remove_ensembles_loop groups.

(** *** to_dataset_dict *)

(** [(self.df[col].iloc[0] == self.df[col]).all()], on a frame with at
    least one row. *)
Definition all_equal_first (col : string) (d : DataFrame) : bool :=
  match column_values col d with
  | [] => true
  | v0 :: _ => forallb (String.eqb v0) (column_values col d)
  end.

(** The loop that fills [output_key_format]. *)
Definition output_key_format (minimal_keys : bool) (ignore_facets : list string)
    (d : DataFrame) : Result (list string) :=
  match drop_columns ignore_facets d with
  | Ok kept =>
      Ok (filter (fun col => if minimal_keys then negb (all_equal_first col d) else true)
                 (columns kept))
  | Raise e => Raise e
  end.

(** Steps 1) and 4) of the loop body: the files of one record, from the
    local root first and from a download when that found nothing. *)
Definition resolve_files (response : Response) (data_root : Path) : M State (list Path) :=
  file_list <- try_except
                 (extern (CallLocalFilelist response data_root)
                         (response_to_local_filelist env response data_root))
                 is_FileNotFoundError
                 (ret []) ;;
  match file_list with
  | [] =>
      c <- get_self ;;
      extern (CallHttpsDownload response (local_cache c))
             (response_to_https_download env response (local_cache c))
  | _ :: _ => ret file_list
  end.

(** [row.globus_subject] *)
Definition getattr_cell (col : string) (d : DataFrame) (row : FrameRow) : Result string :=
  if has_column col d then Ok (cell (columns d) col row)
  else Raise (AttributeError col).

(** The end of the loop body: the files are opened and the outcome stored
    under the key of the row. *)
Definition open_files (key : string) (file_list : list Path) (ds : Dict) : M State Dict :=
  if Nat.eqb (List.length file_list) 1 then
    v <- extern (CallOpenDataset (hd "" file_list))
                (open_dataset env (hd "" file_list)) ;;
    ret (dict_set key (VDataset v) ds)
  else if Nat.ltb 1 (List.length file_list) then
    v <- extern (CallOpenMfdataset file_list) (open_mfdataset env file_list) ;;
    ret (dict_set key (VDataset v) ds)
  else
    ret (dict_set key (VStr could_not_obtain) ds).

(** [separator.join([row[k] for k in output_key_format])] *)
Definition row_key (key_format : list string) (separator : string)
    (d : DataFrame) (row : FrameRow) : string :=
  join separator (map (fun k => cell (columns d) k row) key_format).

(** The body of the loop over [self.df.iterrows()], for one row. *)
Definition materialize_row (key_format : list string) (separator : string)
    (data_root : Path) (d : DataFrame) (row : FrameRow) (ds : Dict) : M State Dict :=
  c <- get_self ;;
  idx <- match index_id c with
         | Some i => ret i
         | None => raise (AttributeError "index_id")
         end ;;
  subject <- lift (getattr_cell "globus_subject" d row) ;;
  response <- extern (CallPostSearch idx subject) (post_search env idx subject) ;;
  file_list <- resolve_files response data_root ;;
  open_files (row_key key_format separator d row) file_list ds.

Fixpoint materialize_rows (key_format : list string) (separator : string)
    (data_root : Path) (d : DataFrame) (todo : list FrameRow) (ds : Dict) : M State Dict :=
  match todo with
  | [] => ret ds
  | row :: rest =>
      ds' <- materialize_row key_format separator data_root d row ds ;;
      materialize_rows key_format separator data_root d rest ds'
  end.

Definition no_entries : Exn := ValueError "No entries to retrieve.".

Definition to_dataset_dict (minimal_keys : bool) (ignore_facets : IgnoreFacets)
    (separator : string) : M State Dict :=
  c <- get_self ;;
  match df c with
  | None => raise no_entries
  | Some d =>
      if Nat.eqb (len d) 0 then raise no_entries
      else
        let data_root := match esgf_data_root c with
                         | Some root => root
                         | None => local_cache c
                         end in
        ref <- match ignore_facets with
               | IgnoreNone => alloc []
               | IgnoreStr s => alloc [s]
               | IgnoreList r => ret r
               end ;;
        extend ref always_ignored ;;
        ignored <- deref ref ;;
        key_format <- lift (output_key_format minimal_keys ignored d) ;;
        materialize_rows key_format separator data_root d (rows d) []
  end.

Definition to_datatree (minimal_keys : bool) (ignore_facets : IgnoreFacets)
    : M State DataTree :=
  ds <- to_dataset_dict minimal_keys ignore_facets "/" ;;
  extern (CallFromDict ds) (from_dict env ds).

End Catalog.

Arguments ESGFCatalog : clear implicits.
Arguments SearchIndex : clear implicits.
Arguments Env : clear implicits.
Arguments State : clear implicits.
Arguments Call : clear implicits.
Arguments Value : clear implicits.
Arguments Dict : clear implicits.

(** ** The views of the catalog, its configuration and the example script *)

(** [Series.unique()]: the values that occur, each once, in the order of
    their first occurrence. *)
Fixpoint unique_values (l : list string) : list string :=
  match l with
  | [] => []
  | x :: l' => x :: filter (fun y => negb (String.eqb y x)) (unique_values l')
  end.

(** [out[col] = values] on the dictionary that [unique] fills. *)
Fixpoint out_set (col : string) (values : list string)
    (out : list (string * list string)) : list (string * list string) :=
  match out with
  | [] => [(col, values)]
  | (c, v) :: out' =>
      if String.eqb col c then (col, values) :: out' else (c, v) :: out_set col values out'
  end.

Fixpoint out_get (col : string) (out : list (string * list string)) : option (list string) :=
  match out with
  | [] => None
  | (c, v) :: out' => if String.eqb col c then Some v else out_get col out'
  end.

(** The loop of [unique] over the columns that are left. *)
Fixpoint unique_loop (d : DataFrame) (cols : list string)
    (out : list (string * list string)) : list (string * list string) :=
  match cols with
  | [] => out
  | col :: rest => unique_loop d rest (out_set col (unique_values (column_values col d)) out)
  end.

Section Views.
Context {World Response Dataset : Type}.
#[local] Abbreviation State := (State World Response Dataset).

(** [ESGFCatalog.unique]: the series is the dictionary it was built from. *)
Definition unique : M State (list (string * list string)) :=
  d <- get_df ;;
  kept <- lift (drop_columns ["id"; "version"] d) ;;
  ret (unique_loop d (columns kept) []).

(** [ESGFCatalog.model_groups]: for each group, [count()] of the column
    [variable_id], which has no missing value to leave out. *)
Definition model_groups : M State (list (GroupKey * nat)) :=
  d <- get_df ;;
  groups <- lift (groupby model_group_columns d) ;;
  if has_column "variable_id" d
  then ret (map (fun kg => (fst kg, len (snd kg))) groups)
  else raise (KeyError "variable_id").

(** [ESGFCatalog.set_esgf_data_root]; [is_dir] is [Path.is_dir], a question
    to the file system. A failed [assert] raises [AssertionError]. *)
Definition set_esgf_data_root (is_dir : Path -> World -> bool) (root : Path)
    : M State unit :=
  fun st =>
    if is_dir root (world st)
    then
      let c := self st in
      ({| self := {| indices := indices c; df := df c;
                     esgf_data_root := Some root;
                     local_cache := local_cache c; index_id := index_id c |};
          world := world st; heap := heap st; next_ref := next_ref st;
          calls := calls st |}, Ok tt)
    else (st, Raise (OtherError "AssertionError")).
End Views.

(** [examples/find_ilamb_models.py] *)
Module Ilamb.

Definition required : list string := ["cSoil"; "cVeg"; "gpp"; "lai"].

Definition either : list string := ["nbp"; "netAtmosLandCO2Flux"].

(** [complete(df)]: every required variable is there, and one of the two that
    stand for each other. *)
Definition complete (d : DataFrame) : Result bool :=
  match getattr_column "variable_id" d with
  | Raise e => Raise e
  | Ok variable_id =>
      match filter (fun v => negb (name_in (unique_values variable_id) v)) required with
      | _ :: _ => Ok false
      | [] =>
          if existsb (fun v => name_in either v) variable_id then Ok true
          else Ok false
      end
  end.

End Ilamb.

(** ** Vocabulary of the properties *)

(** [l] is [l'] with some elements left out: same elements, same order. *)
Inductive Subseq {A : Type} : list A -> list A -> Prop :=
| Subseq_nil : Subseq [] []
| Subseq_keep (x : A) (l l' : list A) : Subseq l l' -> Subseq (x :: l) (x :: l')
| Subseq_skip (x : A) (l l' : list A) : Subseq l l' -> Subseq l (x :: l').

(** The working set [after] holds only records of [before], as they were. *)
Definition narrowed (after before : option DataFrame) : Prop :=
  match before, after with
  | None, None => True
  | Some b, Some a => columns a = columns b /\ Subseq (rows a) (rows b)
  | _, _ => False
  end.

(** Every row of [d] has the same value in the column [col]. *)
Definition uniform (col : string) (d : DataFrame) : Prop :=
  forall r r', In r (rows d) -> In r' (rows d) ->
    cell (columns d) col r = cell (columns d) col r'.

(** No search was performed, or the search returned no row. *)
Definition working_set_empty (d : option DataFrame) : Prop :=
  match d with
  | None => True
  | Some d => rows d = []
  end.

Section Vocabulary.
Context {World Response Dataset : Type}.
#[local] Abbreviation State := (State World Response Dataset).

(** The state [st] after [self.df = d]. *)
Definition with_df (st : State) (d : DataFrame) : State := fst (set_df d st).

(** From [st] to [st'] the working set was only narrowed. *)
Definition narrows (st st' : State) : Prop :=
  narrowed (df (self st')) (df (self st)).

(** The state [st] of a catalog configured with the indices [idxs]. *)
Definition with_indices (st : State) (idxs : list (SearchIndex World)) : State :=
  {| self := {| indices := idxs; df := df (self st);
                esgf_data_root := esgf_data_root (self st);
                local_cache := local_cache (self st);
                index_id := index_id (self st) |};
     world := world st; heap := heap st; next_ref := next_ref st;
     calls := calls st |}.

Definition is_download (c : Call Response Dataset) : bool :=
  match c with
  | CallHttpsDownload _ _ => true
  | _ => false
  end.

(** How many times the download was invoked so far. *)
Definition downloads (st : State) : nat :=
  List.length (filter is_download (calls st)).

(** The state [st] once the collaborator calls [cs] were made and left the
    world as [w]. *)
Definition logged (st : State) (w : World) (cs : list (Call Response Dataset)) : State :=
  {| self := self st; world := w; heap := heap st; next_ref := next_ref st;
     calls := calls st ++ cs |}.

(** From [st] to [st'] no list object changed. *)
Definition same_heap (st st' : State) : Prop := heap st' = heap st.

(** From [st] to [st'] the download was not invoked. *)
Definition same_downloads (st st' : State) : Prop := downloads st' = downloads st.

(** From [st] to [st'] nothing changed. *)
Definition same_state (st st' : State) : Prop := st' = st.

(** An index whose query raises [e]. *)
Definition failing_index (e : Exn) : SearchIndex World := fun _ w => (w, Raise e).

(** An index whose query returns the table [d]. *)
Definition answering_index (d : DataFrame) : SearchIndex World := fun _ w => (w, Ok d).

(** Every index answers with a table. *)
Definition all_answer (kwargs : Facets) (idxs : list (SearchIndex World))
    (tables : list DataFrame) : Prop :=
  Forall2 (fun index table => forall w, exists w', index kwargs w = (w', Ok table))
          idxs tables.

(** The rows of [d] that [remove_incomplete] is meant to keep: those whose
    group, taken from [d] itself, is complete. *)
Definition complete_rows (complete : DataFrame -> bool) (d : DataFrame) : DataFrame :=
  select_rows
    (fun r => complete (get_group model_group_columns d
                                  (key_of model_group_columns d r)))
    d.
End Vocabulary.

(** A computation that only moves the state along the relation [R], whether
    it returns or raises. *)
Definition preserves {St A : Type} (R : St -> St -> Prop) (c : M St A) : Prop :=
  forall st, R st (fst (c st)).

(** The rows of [d] still present once the groups [processed] went through
    the loop of [remove_incomplete]. *)
Definition kept_after (complete : DataFrame -> bool) (by_cols : list string)
    (d : DataFrame) (processed : list (GroupKey * DataFrame)) (r : FrameRow) : bool :=
  forallb (fun kg => complete (snd kg) || negb (key_eqb (key_of by_cols d r) (fst kg)))
          processed.

Fixpoint all_digits (s : string) : bool :=
  match s with
  | String c s' => is_digit c && all_digits s'
  | EmptyString => true
  end.

Definition number (s : string) : Prop := s <> EmptyString /\ all_digits s = true.

(** The four groups of a match are runs of one or more digits. *)
Definition four_numbers (m : Member) : Prop :=
  let '(r, i, p, f) := m in number r /\ number i /\ number p /\ number f.

(** What follows a greedy run of digits: the end of the string, or a character
    that is not a digit. *)
Definition no_digit_ahead (s : string) : Prop :=
  match s with
  | String c _ => is_digit c = false
  | EmptyString => True
  end.

(** ** Concrete catalogs *)

Module Examples.

(** Collaborators over a world without state: responses are the subject
    they were asked for, datasets are named by their file. *)
Definition ExState : Type := State unit string string.

Definition concat_frames (dfs : list DataFrame) : Result DataFrame :=
  Ok {| columns := match dfs with d :: _ => columns d | [] => [] end;
        rows := flat_map rows dfs |}.

(** Nothing under the local root, and a download that fails. *)
Definition env_offline : Env unit string string unit :=
  {| combine_results := concat_frames;
     post_search := fun _ subject w => (w, Ok subject);
     response_to_local_filelist := fun _ _ w => (w, Raise FileNotFoundError);
     response_to_https_download := fun _ _ w => (w, Raise (OtherError "ConnectionError"));
     open_dataset := fun f w => (w, Ok f);
     open_mfdataset := fun fs w => (w, Ok (join "+" fs));
     from_dict := fun _ w => (w, Ok tt) |}.

(** Nothing under the local root, and a download that returns no file. *)
Definition env_no_files : Env unit string string unit :=
  {| combine_results := concat_frames;
     post_search := fun _ subject w => (w, Ok subject);
     response_to_local_filelist := fun _ _ w => (w, Raise FileNotFoundError);
     response_to_https_download := fun _ _ w => (w, Ok []);
     open_dataset := fun f w => (w, Ok f);
     open_mfdataset := fun fs w => (w, Ok (join "+" fs));
     from_dict := fun _ w => (w, Ok tt) |}.

(** The files are under the local root. *)
Definition env_local : Env unit string string unit :=
  {| combine_results := concat_frames;
     post_search := fun _ subject w => (w, Ok subject);
     response_to_local_filelist := fun r root w => (w, Ok [root ++ "/" ++ r ++ ".nc"]);
     response_to_https_download := fun r cache w => (w, Ok [cache ++ "/" ++ r ++ ".nc"]);
     open_dataset := fun f w => (w, Ok f);
     open_mfdataset := fun fs w => (w, Ok (join "+" fs));
     from_dict := fun _ w => (w, Ok tt) |}.

Definition facet_columns : list string :=
  ["activity_id"; "source_id"; "member_id"; "grid_label"; "variable_id";
   "version"; "data_node"; "globus_subject"].

Definition catalog_of (idxs : list (SearchIndex unit)) (d : option DataFrame)
    (idx : option string) : ESGFCatalog unit :=
  {| indices := idxs; df := d; esgf_data_root := None;
     local_cache := "/home/user/.esgf"; index_id := idx |}.

(** A state in which the caller owns one list object, at address 0. *)
Definition state_of (c : ESGFCatalog unit) (caller_list : list string) : ExState :=
  {| self := c; world := tt;
     heap := fun a => if Nat.eqb a 0 then caller_list else [];
     next_ref := 1; calls := [] |}.

(** Two members of one model, the realizations 2 and 10. *)
Definition two_members : DataFrame :=
  {| columns := facet_columns;
     rows := [(0, ["CMIP"; "CESM2"; "r2i1p1f1"; "gn"; "gpp"; "v1"; "node-a"; "s0"]);
              (1, ["CMIP"; "CESM2"; "r10i1p1f1"; "gn"; "gpp"; "v1"; "node-a"; "s1"])] |}.

(** The member identifiers of the example of the specification. *)
Definition three_members : DataFrame :=
  {| columns := facet_columns;
     rows := [(0, ["CMIP"; "CESM2"; "r2i1p1f1"; "gn"; "gpp"; "v1"; "node-a"; "s0"]);
              (1, ["CMIP"; "CESM2"; "r1i1p1f1"; "gn"; "gpp"; "v1"; "node-a"; "s1"]);
              (2, ["CMIP"; "CESM2"; "r10i1p1f1"; "gn"; "gpp"; "v1"; "node-a"; "s2"])] |}.

(** Two models, one of them with two variables. *)
Definition two_models : DataFrame :=
  {| columns := facet_columns;
     rows := [(0, ["CMIP"; "CESM2"; "r1i1p1f1"; "gn"; "gpp"; "v1"; "node-a"; "s0"]);
              (1, ["CMIP"; "CESM2"; "r1i1p1f1"; "gn"; "lai"; "v1"; "node-a"; "s1"]);
              (2, ["CMIP"; "CanESM5"; "r1i1p1f1"; "gn"; "gpp"; "v1"; "node-a"; "s2"])] |}.

Definition first_record : FrameRow :=
  (0, ["CMIP"; "CESM2"; "r1i1p1f1"; "gn"; "gpp"; "v1"; "node-a"; "s0"]).

Definition one_record : DataFrame :=
  {| columns := facet_columns; rows := [first_record] |}.

Definition no_record : DataFrame := {| columns := facet_columns; rows := [] |}.

(** Two models whose records share the label 0, as two tables concatenated
    without a new index would. *)
Definition shared_label : DataFrame :=
  {| columns := facet_columns;
     rows := [(0, ["CMIP"; "CESM2"; "r1i1p1f1"; "gn"; "gpp"; "v1"; "node-a"; "s0"]);
              (0, ["CMIP"; "CanESM5"; "r1i1p1f1"; "gn"; "gpp"; "v1"; "node-b"; "s1"]);
              (1, ["CMIP"; "CanESM5"; "r1i1p1f1"; "gn"; "lai"; "v1"; "node-b"; "s2"])] |}.

(** A completeness rule: the group has both variables. *)
Definition has_gpp_and_lai (grp : DataFrame) : bool :=
  name_in (column_values "variable_id" grp) "gpp"
  && name_in (column_values "variable_id" grp) "lai".

End Examples.

(** ** Vocabulary of the further properties *)

(** The identifier that [remove_ensembles] selects for the model of the
    record [r], from the records that the model has in [d]. *)
Definition selected_member (d : DataFrame) (r : FrameRow) : string :=
  smallest_member
    (column_values "member_id" (get_group ["source_id"] d (key_of ["source_id"] d r))).

(** The records of [d] that carry the identifier selected for their model. *)
Definition selected_rows (d : DataFrame) : DataFrame :=
  select_rows (fun r => String.eqb (cell (columns d) "member_id" r) (selected_member d r)) d.

(** The rows of [d] still present once the groups [processed] went through
    the loop of [remove_ensembles]. *)
Definition ensembles_kept (d : DataFrame) (processed : list (GroupKey * DataFrame))
    (r : FrameRow) : bool :=
  forallb (fun kg =>
             negb (key_eqb (key_of ["source_id"] d r) (fst kg))
             || String.eqb (cell (columns d) "member_id" r)
                           (smallest_member (column_values "member_id" (snd kg))))
          processed.

(** A member identifier that is the four-number pattern and nothing else. *)
Definition exact_member_id (s : string) : Prop :=
  exists m, four_numbers m /\ s = format_member (Some m).

(** What [search] appends for indices with the outcomes [outs], the last
    table assigned to [df] being [prev]: the table of an index that answers,
    and the last assigned table again for an index that raises. *)
Fixpoint carry_forward (prev : DataFrame) (outs : list (Result DataFrame)) : list DataFrame :=
  match outs with
  | [] => []
  | Ok d :: rest => d :: carry_forward d rest
  | Raise _ :: rest => prev :: carry_forward prev rest
  end.

(** An outcome that the [except] clause of [search] lets through. *)
Definition caught (o : Result DataFrame) : Prop :=
  match o with
  | Ok _ => True
  | Raise e => is_ValueError_or_SearchAPIError e = true
  end.

Section FurtherVocabulary.
Context {World Response Dataset : Type}.
#[local] Abbreviation State := (State World Response Dataset).

(** The outcome of each index, whatever the world it is queried in. *)
Definition outcomes (kwargs : Facets) (idxs : list (SearchIndex World))
    (outs : list (Result DataFrame)) : Prop :=
  Forall2 (fun index o => forall w, exists w', index kwargs w = (w', o)) idxs outs.

(** From [st] to [st'] the catalog object did not change. *)
Definition same_self (st st' : State) : Prop := self st' = self st.

(** The directory that [to_dataset_dict] looks into first. *)
Definition data_root_of (c : ESGFCatalog World) : Path :=
  match esgf_data_root c with
  | Some root => root
  | None => local_cache c
  end.

(** A call that looks for files under [data_root] only and downloads into
    [cache] only. *)
Definition uses_roots (data_root cache : Path) (c : Call Response Dataset) : Prop :=
  match c with
  | CallLocalFilelist _ root => root = data_root
  | CallHttpsDownload _ dest => dest = cache
  | _ => True
  end.

(** From [st], a catalog with the cache [cache], to [st'] the catalog object
    did not change and every call made satisfies [P]. *)
Definition calls_within (cache : Path) (P : Call Response Dataset -> Prop)
    (st st' : State) : Prop :=
  local_cache (self st) = cache ->
  self st' = self st
  /\ exists cs, calls st' = (calls st ++ cs)%list /\ Forall P cs.

Definition is_listing (c : Call Response Dataset) : bool :=
  match c with
  | CallPostSearch _ _ => true
  | _ => false
  end.

(** How many file listings were asked for so far. *)
Definition listings (st : State) : nat :=
  List.length (filter is_listing (calls st)).

Definition same_listings (st st' : State) : Prop := listings st' = listings st.

(** The call that opens the files of a record: none without a file,
    [xr.open_dataset] for one file, [xr.open_mfdataset] for several. *)
Definition opening (file_list : list Path) : list (Call Response Dataset) :=
  match file_list with
  | [] => []
  | [file] => [CallOpenDataset file]
  | _ :: _ :: _ => [CallOpenMfdataset file_list]
  end.

(** The names that the caller asked to ignore. *)
Definition given_facets (st : State) (ignore_facets : IgnoreFacets) : list string :=
  match ignore_facets with
  | IgnoreNone => []
  | IgnoreStr s => [s]
  | IgnoreList ref => heap st ref
  end.
End FurtherVocabulary.

(** ** More concrete catalogs *)

Module FurtherExamples.

(** A working set with the columns that [unique] leaves out. *)
Definition identified : DataFrame :=
  {| columns := ["id"; "source_id"; "member_id"; "grid_label"; "variable_id"; "version"];
     rows := [(0, ["a"; "CESM2"; "r1i1p1f1"; "gn"; "gpp"; "v1"]);
              (1, ["b"; "CESM2"; "r1i1p1f1"; "gn"; "lai"; "v1"]);
              (2, ["c"; "CanESM5"; "r1i1p1f1"; "gn"; "gpp"; "v2"])] |}.


(** A group with the variables that the rule of the script asks for. *)
Definition carbon_cycle : DataFrame :=
  {| columns := ["source_id"; "variable_id"];
     rows := [(0, ["CESM2"; "cSoil"]); (1, ["CESM2"; "cVeg"]); (2, ["CESM2"; "gpp"]);
              (3, ["CESM2"; "lai"]); (4, ["CESM2"; "netAtmosLandCO2Flux"])] |}.

(** Every directory exists. *)
Definition any_dir : Path -> unit -> bool := fun _ _ => true.

(** A catalog whose second index fails. *)
Definition flaky_catalog : Examples.ExState :=
  Examples.state_of
    (Examples.catalog_of
       [answering_index Examples.one_record;
        failing_index (ValueError "bad facet");
        answering_index Examples.no_record]
       None None) [].

(** A catalog that can materialize its records. *)
Definition ready (d : DataFrame) : Examples.ExState :=
  Examples.state_of (Examples.catalog_of [] (Some d) (Some "esgf-index")) [].

(** The dictionary that a run returned, empty if it raised. *)
Definition returned {St A : Type} (run : St * Result (list A)) : list A :=
  match snd run with
  | Ok ds => ds
  | Raise _ => []
  end.

End FurtherExamples.

(** * Properties *)

Arguments key_of : simpl never.

(** ** Lists, sorting and sub-sequences *)

Lemma insert_sorted_perm {A : Type} (leb : A -> A -> bool) (x : A) (l : list A) :
  Permutation (insert_sorted leb x l) (x :: l).
Proof.
  induction l as [|y l IH]; simpl.
  - apply Permutation_refl.
  - destruct (leb x y).
    + apply Permutation_refl.
    + eapply perm_trans; [apply perm_skip, IH | apply perm_swap].
Qed.

Lemma stable_sort_perm {A : Type} (leb : A -> A -> bool) (l : list A) :
  Permutation (stable_sort leb l) l.
Proof.
  induction l as [|x l IH]; simpl.
  - apply perm_nil.
  - eapply perm_trans; [apply insert_sorted_perm | apply perm_skip, IH].
Qed.

Lemma stable_sort_in {A : Type} (leb : A -> A -> bool) (l : list A) (x : A) :
  In x (stable_sort leb l) <-> In x l.
Proof.
  split; apply Permutation_in;
    [apply stable_sort_perm | apply Permutation_sym, stable_sort_perm].
Qed.

Lemma hd_stable_sort_in {A : Type} (leb : A -> A -> bool) (l : list A) (d : A) :
  l <> [] -> In (hd d (stable_sort leb l)) l.
Proof.
  intros Hne. apply (stable_sort_in leb).
  destruct (stable_sort leb l) as [|y s] eqn:E.
  - exfalso. apply Hne. apply Permutation_nil.
    rewrite <- E. apply stable_sort_perm.
  - simpl. now left.
Qed.

Lemma Subseq_refl {A : Type} (l : list A) : Subseq l l.
Proof. induction l; constructor; assumption. Qed.

Lemma Subseq_filter {A : Type} (f : A -> bool) (l : list A) : Subseq (filter f l) l.
Proof.
  induction l as [|x l IH]; simpl.
  - constructor.
  - destruct (f x); constructor; assumption.
Qed.

Lemma Subseq_trans {A : Type} (l1 l2 l3 : list A) :
  Subseq l1 l2 -> Subseq l2 l3 -> Subseq l1 l3.
Proof.
  intros H12 H23. revert l1 H12.
  induction H23 as [|x l2 l3 H IH|x l2 l3 H IH]; intros l1 H12.
  - assumption.
  - inversion H12; subst.
    + constructor. now apply IH.
    + apply Subseq_skip. now apply IH.
  - apply Subseq_skip. now apply IH.
Qed.

Lemma Subseq_in {A : Type} (l l' : list A) (x : A) :
  Subseq l l' -> In x l -> In x l'.
Proof.
  induction 1 as [|y l l' H IH|y l l' H IH]; simpl; intros Hin.
  - assumption.
  - destruct Hin; [now left | right; now apply IH].
  - right; now apply IH.
Qed.

Lemma filter_filter_andb {A : Type} (f g : A -> bool) (l : list A) :
  filter g (filter f l) = filter (fun x => f x && g x) l.
Proof.
  induction l as [|x l IH]; simpl; [reflexivity|].
  destruct (f x); simpl; [destruct (g x)|]; now rewrite IH.
Qed.

(** ** Data frames *)

Lemma label_in_spec (labels : list Label) (l : Label) :
  label_in labels l = true <-> In l labels.
Proof.
  unfold label_in. rewrite existsb_exists. split.
  - intros [x [Hin Heq]]. apply Nat.eqb_eq in Heq. now subst.
  - intros Hin. exists l. split; [assumption | apply Nat.eqb_refl].
Qed.

Lemma name_in_spec (names : list string) (c : string) :
  name_in names c = true <-> In c names.
Proof.
  unfold name_in. rewrite existsb_exists. split.
  - intros [x [Hin Heq]]. apply String.eqb_eq in Heq. now subst.
  - intros Hin. exists c. split; [assumption | apply String.eqb_refl].
Qed.

Lemma key_eqb_spec (a b : GroupKey) : key_eqb a b = true <-> a = b.
Proof. unfold key_eqb. destruct (key_eq_dec a b); split; congruence. Qed.

Lemma key_eqb_refl (a : GroupKey) : key_eqb a a = true.
Proof. now apply key_eqb_spec. Qed.

(** A label of a frame with a unique index names one row. *)
Lemma label_names_one_row (l : list FrameRow) (r r' : FrameRow) :
  NoDup (map fst l) -> In r l -> In r' l -> fst r = fst r' -> r = r'.
Proof.
  induction l as [|x l IH]; simpl; intros Hnd Hr Hr' Heq; [contradiction|].
  inversion Hnd as [|? ? Hnotin Hnd']; subst.
  destruct Hr as [-> | Hr], Hr' as [-> | Hr'].
  - reflexivity.
  - exfalso. apply Hnotin. rewrite Heq. now apply in_map.
  - exfalso. apply Hnotin. rewrite <- Heq. now apply in_map.
  - now apply IH.
Qed.

Lemma select_rows_all (d : DataFrame) (keep : FrameRow -> bool) :
  (forall r, In r (rows d) -> keep r = true) -> select_rows keep d = d.
Proof.
  intros H. destruct d as [cols rs]. unfold select_rows. simpl in *. f_equal.
  apply forallb_filter_id. now apply forallb_forall.
Qed.

Lemma select_rows_ext_in (d : DataFrame) (f g : FrameRow -> bool) :
  (forall r, In r (rows d) -> f r = g r) -> select_rows f d = select_rows g d.
Proof.
  intros H. unfold select_rows. f_equal. now apply filter_ext_in.
Qed.

Lemma select_rows_twice (d : DataFrame) (f g : FrameRow -> bool) :
  select_rows g (select_rows f d) = select_rows (fun r => f r && g r) d.
Proof.
  unfold select_rows. simpl. f_equal. apply filter_filter_andb.
Qed.

Lemma drop_index_nil (d : DataFrame) : drop_index [] d = Ok d.
Proof.
  unfold drop_index. simpl. f_equal. now apply select_rows_all.
Qed.

Lemma drop_index_narrows (labels : list Label) (d d' : DataFrame) :
  drop_index labels d = Ok d' ->
  columns d' = columns d /\ Subseq (rows d') (rows d)
  /\ forall r, In r (rows d') -> ~ In (fst r) labels.
Proof.
  unfold drop_index. destruct (forallb _ labels); [|discriminate].
  intros H. injection H as <-. simpl. repeat split.
  - apply Subseq_filter.
  - intros r Hin Hl. apply filter_In in Hin. destruct Hin as [_ Hneg].
    apply label_in_spec in Hl. rewrite Hl in Hneg. discriminate.
Qed.

Lemma get_group_columns (by_cols : list string) (d : DataFrame) (k : GroupKey) :
  columns (get_group by_cols d k) = columns d.
Proof. reflexivity. Qed.

Lemma in_get_group (by_cols : list string) (d : DataFrame) (k : GroupKey) (r : FrameRow) :
  In r (rows (get_group by_cols d k)) <-> In r (rows d) /\ key_of by_cols d r = k.
Proof.
  unfold get_group, select_rows. simpl. rewrite filter_In, key_eqb_spec. tauto.
Qed.

Lemma in_group_keys (by_cols : list string) (d : DataFrame) (k : GroupKey) :
  In k (group_keys by_cols d) <-> exists r, In r (rows d) /\ key_of by_cols d r = k.
Proof.
  unfold group_keys. rewrite stable_sort_in, nodup_In, in_map_iff.
  split; intros [r [H1 H2]]; exists r; tauto.
Qed.

Lemma group_keys_nodup (by_cols : list string) (d : DataFrame) :
  NoDup (group_keys by_cols d).
Proof.
  unfold group_keys.
  eapply Permutation_NoDup; [apply Permutation_sym, stable_sort_perm|].
  apply NoDup_nodup.
Qed.

Lemma groups_of_keys (by_cols : list string) (d : DataFrame) :
  map fst (groups_of by_cols d) = group_keys by_cols d.
Proof.
  unfold groups_of. rewrite map_map. simpl. apply map_id.
Qed.

Lemma in_groups_of (by_cols : list string) (d : DataFrame) (k : GroupKey) (g : DataFrame) :
  In (k, g) (groups_of by_cols d) -> g = get_group by_cols d k.
Proof.
  unfold groups_of. rewrite in_map_iff. intros [k' [Heq _]]. congruence.
Qed.

Lemma row_key_in_groups (by_cols : list string) (d : DataFrame) (r : FrameRow) :
  In r (rows d) ->
  In (key_of by_cols d r, get_group by_cols d (key_of by_cols d r)) (groups_of by_cols d).
Proof.
  intros Hin. unfold groups_of.
  apply (in_map (fun k => (k, get_group by_cols d k))).
  apply in_group_keys. now exists r.
Qed.

(** ** The monad *)

Section Preservation.
Context {St : Type} (R : St -> St -> Prop).
Hypothesis R_refl : forall st, R st st.
Hypothesis R_trans : forall a b c, R a b -> R b c -> R a c.

Lemma preserves_ret {A : Type} (a : A) : preserves R (ret a).
Proof. intros st. apply R_refl. Qed.

Lemma preserves_raise {A : Type} (e : Exn) : preserves R (@raise St A e).
Proof. intros st. apply R_refl. Qed.

Lemma preserves_lift {A : Type} (r : Result A) : preserves R (lift r).
Proof. intros st. apply R_refl. Qed.

Lemma preserves_bind {A B : Type} (c : M St A) (k : A -> M St B) :
  preserves R c -> (forall a, preserves R (k a)) -> preserves R (bind c k).
Proof.
  intros Hc Hk st. unfold bind. specialize (Hc st).
  destruct (c st) as [st' [a|e]]; simpl in *.
  - eapply R_trans; [exact Hc | apply Hk].
  - exact Hc.
Qed.

Lemma preserves_try_except {A : Type} (c : M St A) (handles : Exn -> bool)
    (handler : M St A) :
  preserves R c -> preserves R handler -> preserves R (try_except c handles handler).
Proof.
  intros Hc Hh st. unfold try_except. specialize (Hc st).
  destruct (c st) as [st' [a|e]]; simpl in *.
  - exact Hc.
  - destruct (handles e); simpl.
    + eapply R_trans; [exact Hc | apply Hh].
    + exact Hc.
Qed.
End Preservation.

(** ** The filters only narrow the working set *)

Lemma narrowed_refl (o : option DataFrame) : narrowed o o.
Proof.
  destruct o as [d|]; simpl; [|exact I]. split; [reflexivity | apply Subseq_refl].
Qed.

Lemma narrowed_trans (a b c : option DataFrame) :
  narrowed b a -> narrowed c b -> narrowed c a.
Proof.
  destruct a, b, c; simpl; try tauto.
  intros [Hc1 Hs1] [Hc2 Hs2]. split; [congruence | eapply Subseq_trans; eassumption].
Qed.

Section Filters.
Context {World Response Dataset : Type}.
#[local] Abbreviation State := (State World Response Dataset).

Lemma narrows_refl (st : State) : narrows st st.
Proof. apply narrowed_refl. Qed.

Lemma narrows_trans (a b c : State) : narrows a b -> narrows b c -> narrows a c.
Proof. unfold narrows. apply narrowed_trans. Qed.

Lemma set_df_run (d : DataFrame) (st : State) : set_df d st = (with_df st d, Ok tt).
Proof. reflexivity. Qed.

Lemma with_df_df (st : State) (d : DataFrame) : df (self (with_df st d)) = Some d.
Proof. reflexivity. Qed.

Lemma with_df_twice (st : State) (d d' : DataFrame) :
  with_df (with_df st d) d' = with_df st d'.
Proof. reflexivity. Qed.

Lemma with_df_same (st : State) (d : DataFrame) :
  df (self st) = Some d -> with_df st d = st.
Proof.
  destruct st as [[idxs o root cache iid] w h n cs]. simpl. intros ->. reflexivity.
Qed.

Lemma drop_step_run (labels : list Label) (st : State) (cur cur' : DataFrame) :
  df (self st) = Some cur -> drop_index labels cur = Ok cur' ->
  drop_step labels st = (with_df st cur', Ok tt).
Proof.
  intros Hdf Hdrop. unfold drop_step, bind, get_df, lift.
  rewrite Hdf, Hdrop. reflexivity.
Qed.

Lemma drop_step_narrows (labels : list Label) : preserves (St := State) narrows (drop_step labels).
Proof.
  intros st. unfold drop_step, bind, get_df, lift, narrows.
  destruct (df (self st)) as [cur|] eqn:Hdf; simpl; [|now rewrite Hdf].
  destruct (drop_index labels cur) as [cur'|e] eqn:Hdrop; simpl.
  - apply drop_index_narrows in Hdrop. tauto.
  - rewrite Hdf. apply (narrowed_refl (Some cur)).
Qed.

Lemma remove_incomplete_loop_narrows (complete : DataFrame -> bool)
    (groups : list (GroupKey * DataFrame)) :
  preserves (St := State) narrows (remove_incomplete_loop complete groups).
Proof.
  induction groups as [|[lbl grp] rest IH]; cbn [remove_incomplete_loop].
  - apply preserves_ret, narrows_refl.
  - apply preserves_bind; [apply narrows_trans| |intros _; exact IH].
    destruct (negb (complete grp)).
    + apply drop_step_narrows.
    + apply preserves_ret, narrows_refl.
Qed.

Lemma remove_ensembles_loop_narrows (groups : list (GroupKey * DataFrame)) :
  preserves (St := State) narrows (remove_ensembles_loop groups).
Proof.
  induction groups as [|[lbl grp] rest IH]; cbn [remove_ensembles_loop].
  - apply preserves_ret, narrows_refl.
  - apply preserves_bind; [apply narrows_trans|apply preserves_lift, narrows_refl|].
    intros member_ids.
    apply preserves_bind; [apply narrows_trans|apply drop_step_narrows|intros _; exact IH].
Qed.

Lemma get_df_narrows : preserves (St := State) narrows get_df.
Proof.
  intros st. unfold get_df. destruct (df (self st)); apply narrows_refl.
Qed.

Lemma remove_incomplete_narrows (complete : DataFrame -> bool) :
  preserves (St := State) narrows (remove_incomplete complete).
Proof.
  apply (preserves_bind narrows narrows_trans); [apply get_df_narrows|intros d].
  apply (preserves_bind narrows narrows_trans);
    [apply preserves_lift, narrows_refl|intros groups].
  apply remove_incomplete_loop_narrows.
Qed.

Lemma remove_ensembles_narrows : preserves (St := State) narrows remove_ensembles.
Proof.
  apply (preserves_bind narrows narrows_trans); [apply get_df_narrows|intros d].
  apply (preserves_bind narrows narrows_trans);
    [apply preserves_lift, narrows_refl|intros groups].
  apply remove_ensembles_loop_narrows.
Qed.

(** C9. Both filters only narrow the working set: whatever the working set and
    however the call ends, the records held after [remove_incomplete] and after
    [remove_ensembles] are records held before the call, unchanged and in the
    same order, under the same columns; nothing is added or modified. *)
Theorem filters_only_narrow (complete : DataFrame -> bool) (st : State) :
  narrowed (df (self (fst (remove_incomplete complete st)))) (df (self st))
  /\ narrowed (df (self (fst (remove_ensembles st)))) (df (self st)).
Proof.
  split.
  - apply (remove_incomplete_narrows complete st).
  - apply (remove_ensembles_narrows st).
Qed.

(** ** remove_incomplete *)

Lemma kept_after_app (complete : DataFrame -> bool) (by_cols : list string)
    (d : DataFrame) (pre post : list (GroupKey * DataFrame)) (r : FrameRow) :
  kept_after complete by_cols d (pre ++ post) r
  = kept_after complete by_cols d pre r && kept_after complete by_cols d post r.
Proof. unfold kept_after. apply forallb_app. Qed.

(** Once every group went through the loop, a row is still there exactly when
    its own group is complete. *)
Lemma kept_after_all (complete : DataFrame -> bool) (by_cols : list string)
    (d : DataFrame) (groups : list (GroupKey * DataFrame)) (r : FrameRow) :
  (forall k g, In (k, g) groups -> g = get_group by_cols d k) ->
  In (key_of by_cols d r, get_group by_cols d (key_of by_cols d r)) groups ->
  kept_after complete by_cols d groups r
  = complete (get_group by_cols d (key_of by_cols d r)).
Proof.
  intros Hgroups Hown.
  destruct (complete (get_group by_cols d (key_of by_cols d r))) eqn:Hc.
  - unfold kept_after. apply forallb_forall. intros [k g] Hin. simpl.
    destruct (key_eqb (key_of by_cols d r) k) eqn:Hk; [|apply orb_true_r].
    apply key_eqb_spec in Hk. subst k.
    rewrite (Hgroups _ _ Hin), Hc. reflexivity.
  - apply not_true_is_false. intros Hall.
    unfold kept_after in Hall. rewrite forallb_forall in Hall.
    specialize (Hall _ Hown). simpl in Hall.
    rewrite Hc, key_eqb_refl in Hall. discriminate.
Qed.

(** Under a unique index, the labels of a group select the rows of the group. *)
Lemma label_in_group (by_cols : list string) (d : DataFrame) (k : GroupKey) (r : FrameRow) :
  NoDup (index d) -> In r (rows d) ->
  label_in (index (get_group by_cols d k)) (fst r) = key_eqb (key_of by_cols d r) k.
Proof.
  intros Hnd Hin.
  destruct (key_eqb (key_of by_cols d r) k) eqn:Hk.
  - apply label_in_spec. unfold index. apply in_map.
    apply in_get_group. apply key_eqb_spec in Hk. tauto.
  - apply not_true_is_false. intros Hl. apply label_in_spec in Hl.
    unfold index in Hl. apply in_map_iff in Hl. destruct Hl as [r' [Hfst Hin']].
    apply in_get_group in Hin'. destruct Hin' as [Hin' Hkey].
    assert (r' = r) by (eapply label_names_one_row; eassumption).
    subst r'. apply key_eqb_spec in Hkey. congruence.
Qed.

Lemma remove_incomplete_loop_run (complete : DataFrame -> bool) (d : DataFrame)
    (groups pre : list (GroupKey * DataFrame)) (st : State) :
  NoDup (index d) ->
  NoDup (map fst (pre ++ groups)) ->
  (forall k g, In (k, g) groups -> g = get_group model_group_columns d k) ->
  df (self st) = Some (select_rows (kept_after complete model_group_columns d pre) d) ->
  remove_incomplete_loop complete groups st
  = (with_df st (select_rows (kept_after complete model_group_columns d (pre ++ groups)) d),
     Ok tt).
Proof.
  intros Hnd. revert pre st.
  induction groups as [|[k g] rest IH]; intros pre st Hkeys Hgroups Hdf.
  - rewrite app_nil_r. simpl. unfold ret. now rewrite with_df_same.
  - assert (Hg : g = get_group model_group_columns d k) by (apply Hgroups; now left).
    assert (Hrest : forall k' g', In (k', g') rest ->
                                  g' = get_group model_group_columns d k')
      by (intros; apply Hgroups; now right).
    assert (Happ : (pre ++ (k, g) :: rest = (pre ++ [(k, g)]) ++ rest)%list)
      by (rewrite <- app_assoc; reflexivity).
    rewrite Happ in Hkeys |- *.
    cbn [remove_incomplete_loop]. unfold bind at 1.
    destruct (complete g) eqn:Hc; cbn [negb].
    + unfold ret at 1. apply IH; [assumption..|].
      rewrite Hdf. f_equal. apply select_rows_ext_in. intros r _.
      rewrite kept_after_app.
      unfold kept_after at 3. simpl. rewrite Hc. simpl. now rewrite andb_true_r.
    + assert (Hlabels : forallb (label_in (index (select_rows
                  (kept_after complete model_group_columns d pre) d))) (index g) = true).
      { apply forallb_forall. intros l Hl. unfold index in Hl.
        apply in_map_iff in Hl. destruct Hl as [r [<- Hr]].
        rewrite Hg in Hr. apply in_get_group in Hr. destruct Hr as [Hr Hkey].
        apply label_in_spec. unfold index. apply in_map. simpl.
        apply filter_In. split; [assumption|].
        unfold kept_after. apply forallb_forall. intros [k' g'] Hin'. simpl.
        destruct (key_eqb (key_of model_group_columns d r) k') eqn:Hk';
          [|apply orb_true_r].
        exfalso. apply key_eqb_spec in Hk'.
        rewrite map_app, map_app in Hkeys. simpl in Hkeys.
        rewrite <- app_assoc in Hkeys. apply NoDup_remove_2 in Hkeys.
        apply Hkeys. apply in_or_app. left.
        replace k with (fst (k', g')) by (simpl; congruence).
        now apply in_map. }
      erewrite drop_step_run; [|eassumption|unfold drop_index; rewrite Hlabels; reflexivity].
      rewrite (IH (pre ++ [(k, g)])%list); [reflexivity|assumption..|].
      rewrite with_df_df. f_equal. rewrite select_rows_twice.
      apply select_rows_ext_in. intros r Hr.
      rewrite kept_after_app. f_equal.
      unfold kept_after. simpl. rewrite Hc, andb_true_r. simpl. f_equal.
      rewrite Hg. now apply label_in_group.
Qed.


End Filters.

(** ** Member identifiers *)

Lemma span_digits_spec (s ds rest : string) :
  span_digits s = (ds, rest) -> all_digits ds = true /\ s = ds ++ rest.
Proof.
  revert ds rest. induction s as [|c s IH]; simpl; intros ds rest H.
  - injection H as <- <-. split; reflexivity.
  - destruct (is_digit c) eqn:Hc.
    + destruct (span_digits s) as [ds' rest'] eqn:E. injection H as <- <-.
      destruct (IH _ _ eq_refl) as [Hd Hs]. simpl. rewrite Hc, Hd. subst s.
      split; reflexivity.
    + injection H as <- <-. split; reflexivity.
Qed.

Lemma span_digits_app (ds rest : string) :
  all_digits ds = true -> no_digit_ahead rest -> span_digits (ds ++ rest) = (ds, rest).
Proof.
  intros Hd Hrest. induction ds as [|c ds IH]; simpl in *.
  - destruct rest as [|c rest]; simpl in *; [reflexivity | now rewrite Hrest].
  - apply andb_true_iff in Hd. destruct Hd as [Hc Hd].
    rewrite Hc, (IH Hd). reflexivity.
Qed.

Lemma letter_digits_number (letter : ascii) (s ds rest : string) :
  letter_digits letter s = Some (ds, rest) -> number ds.
Proof.
  unfold letter_digits. destruct s as [|c s]; [discriminate|].
  destruct (Ascii.eqb c letter); [|discriminate].
  destruct (span_digits s) as [ds' rest'] eqn:E.
  apply span_digits_spec in E. destruct E as [Hd _].
  destruct ds' as [|c' ds']; [discriminate|].
  intros H. injection H as <- <-. split; [discriminate | assumption].
Qed.

Lemma letter_digits_app (letter : ascii) (ds rest : string) :
  number ds -> no_digit_ahead rest ->
  letter_digits letter (String letter (ds ++ rest)) = Some (ds, rest).
Proof.
  intros [Hne Hd] Hrest. unfold letter_digits.
  rewrite Ascii.eqb_refl, (span_digits_app _ _ Hd Hrest).
  destruct ds; [contradiction | reflexivity].
Qed.

Lemma match_member_here_numbers (s : string) (m : Member) :
  match_member_here s = Some m -> four_numbers m.
Proof.
  unfold match_member_here.
  destruct (letter_digits "r" s) as [[r s1]|] eqn:Er; [|discriminate].
  destruct (letter_digits "i" s1) as [[i s2]|] eqn:Ei; [|discriminate].
  destruct (letter_digits "p" s2) as [[p s3]|] eqn:Ep; [|discriminate].
  destruct (letter_digits "f" s3) as [[f s4]|] eqn:Ef; [|discriminate].
  intros H. injection H as <-. simpl.
  repeat split; eapply letter_digits_number; eassumption.
Qed.

Lemma extract_member_numbers (s : string) (m : Member) :
  extract_member s = Some m -> four_numbers m.
Proof.
  induction s as [|c s IH]; simpl.
  - discriminate.
  - destruct (match_member_here (String c s)) as [m'|] eqn:E.
    + intros H. injection H as <-. eapply match_member_here_numbers. eassumption.
    + exact IH.
Qed.

Lemma append_empty_r (s : string) : s ++ "" = s.
Proof. induction s as [|c s IH]; simpl; [reflexivity | now rewrite IH]. Qed.

(** A formatted identifier is read back as the four values it was built from. *)
Lemma extract_format_member (m : Member) :
  four_numbers m -> extract_member (format_member (Some m)) = Some m.
Proof.
  destruct m as [[[r i] p] f]. intros (Hr & Hi & Hp & Hf).
  assert (Hhere : match_member_here (format_member (Some (r, i, p, f)))
                  = Some (r, i, p, f)).
  { unfold match_member_here, format_member.
    change ("r" ++ r ++ "i" ++ i ++ "p" ++ p ++ "f" ++ f)
      with (String "r" (r ++ String "i" (i ++ String "p" (p ++ String "f" f)))).
    rewrite (letter_digits_app "r" r _ Hr) by reflexivity.
    rewrite (letter_digits_app "i" i _ Hi) by reflexivity.
    rewrite (letter_digits_app "p" p _ Hp) by reflexivity.
    rewrite <- (append_empty_r f) at 1.
    rewrite (letter_digits_app "f" f _ Hf) by exact I.
    reflexivity. }
  unfold format_member in *.
  change ("r" ++ r ++ "i" ++ i ++ "p" ++ p ++ "f" ++ f)
    with (String "r" (r ++ String "i" (i ++ String "p" (p ++ String "f" f)))) in *.
  cbn [extract_member]. now rewrite Hhere.
Qed.

Lemma extract_format_any (s : string) :
  extract_member (format_member (extract_member s)) = extract_member s.
Proof.
  destruct (extract_member s) as [m|] eqn:E.
  - apply extract_format_member. eapply extract_member_numbers. eassumption.
  - reflexivity.
Qed.

(** The identifier computed for a group is the one computed again for any
    group whose members all carry it. *)
Lemma smallest_member_fixed (member_ids survivors : list string) :
  member_ids <> [] -> survivors <> [] ->
  (forall s, In s survivors -> s = smallest_member member_ids) ->
  smallest_member survivors = smallest_member member_ids.
Proof.
  intros Hne Hne' Hall. unfold smallest_member at 1, sort_values.
  assert (Hfirst : exists s, In s member_ids
      /\ hd None (sort_values (map extract_member member_ids)) = extract_member s).
  { assert (Hin : In (hd None (sort_values (map extract_member member_ids)))
                     (map extract_member member_ids)).
    { apply hd_stable_sort_in. destruct member_ids; [contradiction | discriminate]. }
    apply in_map_iff in Hin. destruct Hin as [s [Hs Hin]]. exists s. split; congruence. }
  destruct Hfirst as [s0 [_ Hs0]].
  assert (Hre : extract_member (smallest_member member_ids) = extract_member s0).
  { unfold smallest_member. rewrite Hs0. apply extract_format_any. }
  assert (Hin : In (hd None (stable_sort extracted_leb (map extract_member survivors)))
                   (map extract_member survivors)).
  { apply hd_stable_sort_in. destruct survivors; [contradiction | discriminate]. }
  apply in_map_iff in Hin. destruct Hin as [s [Hs Hin]].
  rewrite <- Hs, (Hall _ Hin), Hre.
  unfold smallest_member. now rewrite Hs0.
Qed.

(** ** remove_ensembles *)

Lemma bind_ok_inv {St A B : Type} (c : M St A) (k : A -> M St B)
    (st st' : St) (b : B) :
  bind c k st = (st', Ok b) ->
  exists a st1, c st = (st1, Ok a) /\ k a st1 = (st', Ok b).
Proof.
  unfold bind. destruct (c st) as [st1 [a|e]]; intros H.
  - exists a, st1. split; [reflexivity | assumption].
  - discriminate.
Qed.

Lemma key_of_columns (by_cols : list string) (d d' : DataFrame) (r : FrameRow) :
  columns d' = columns d -> key_of by_cols d' r = key_of by_cols d r.
Proof. intros H. unfold key_of. now rewrite H. Qed.

Lemma has_column_columns (col : string) (d d' : DataFrame) :
  columns d' = columns d -> has_column col d' = has_column col d.
Proof. intros H. unfold has_column. now rewrite H. Qed.

(** A row of a group that is not among the rows to drop carries the selected
    identifier. *)
Lemma not_other_member (grp : DataFrame) (member_id : string) (r : FrameRow) :
  In r (rows grp) -> ~ In (fst r) (other_members grp member_id) ->
  cell (columns grp) "member_id" r = member_id.
Proof.
  intros Hin Hnot.
  destruct (String.eqb (cell (columns grp) "member_id" r) member_id) eqn:E.
  - now apply String.eqb_eq.
  - exfalso. apply Hnot. unfold other_members, index, select_rows. simpl.
    apply in_map. apply filter_In. split; [assumption | now rewrite E].
Qed.

Lemma other_members_none (grp : DataFrame) (member_id : string) :
  (forall r, In r (rows grp) -> cell (columns grp) "member_id" r = member_id) ->
  other_members grp member_id = [].
Proof.
  intros H. unfold other_members, index, select_rows. simpl.
  destruct (filter _ (rows grp)) as [|r rs] eqn:E; [reflexivity|].
  assert (Hin : In r (filter (fun r => negb (cell (columns grp) "member_id" r =? member_id))
                             (rows grp))) by (rewrite E; now left).
  apply filter_In in Hin. destruct Hin as [Hin Hneq].
  rewrite (H _ Hin), String.eqb_refl in Hneq. discriminate.
Qed.

Section Ensembles.
Context {World Response Dataset : Type}.
#[local] Abbreviation State := (State World Response Dataset).

Lemma drop_step_ok_inv (labels : list Label) (st st1 : State) :
  drop_step labels st = (st1, Ok tt) ->
  exists cur cur1,
    df (self st) = Some cur /\ drop_index labels cur = Ok cur1 /\ st1 = with_df st cur1.
Proof.
  unfold drop_step, bind, get_df, lift.
  destruct (df (self st)) as [cur|]; [|discriminate].
  destruct (drop_index labels cur) as [cur1|e] eqn:E; [|discriminate].
  rewrite set_df_run. intros H. injection H as <-. now exists cur, cur1.
Qed.

(** After a pass that returned, no record is left that a group asked to drop. *)
Lemma remove_ensembles_loop_post (groups : list (GroupKey * DataFrame)) (st st' : State) :
  remove_ensembles_loop groups st = (st', Ok tt) ->
  forall k g, In (k, g) groups ->
    has_column "member_id" g = true
    /\ forall d' r, df (self st') = Some d' -> In r (rows d') ->
         ~ In (fst r) (other_members g (smallest_member (column_values "member_id" g))).
Proof.
  revert st. induction groups as [|[k0 g0] rest IH]; intros st Hrun k g Hin.
  - contradiction.
  - cbn [remove_ensembles_loop] in Hrun.
    apply bind_ok_inv in Hrun. destruct Hrun as (ids & st0 & Hids & Hrun).
    unfold lift, getattr_column in Hids.
    destruct (has_column "member_id" g0) eqn:Hcol; [|discriminate].
    injection Hids as <- <-.
    apply bind_ok_inv in Hrun. destruct Hrun as ([] & st1 & Hdrop & Hrun).
    destruct Hin as [Heq | Hin]; [|now apply (IH st1 Hrun k g)].
    injection Heq as <- <-. split; [assumption|].
    intros d' r Hd' Hr.
    apply drop_step_ok_inv in Hdrop. destruct Hdrop as (cur & cur1 & _ & Hcur1 & ->).
    apply drop_index_narrows in Hcur1. destruct Hcur1 as (_ & _ & Hgone).
    apply Hgone.
    pose proof (remove_ensembles_loop_narrows rest (with_df st cur1)) as Hn.
    rewrite Hrun in Hn. unfold narrows in Hn. simpl in Hn. rewrite Hd' in Hn.
    destruct Hn as [_ Hsub]. eapply Subseq_in; eassumption.
Qed.

(** A pass over groups that have nothing to drop leaves the catalog as it is. *)
Lemma remove_ensembles_loop_noop (groups : list (GroupKey * DataFrame))
    (st : State) (cur : DataFrame) :
  df (self st) = Some cur ->
  (forall k g, In (k, g) groups ->
     has_column "member_id" g = true
     /\ other_members g (smallest_member (column_values "member_id" g)) = []) ->
  remove_ensembles_loop groups st = (st, Ok tt).
Proof.
  intros Hdf. induction groups as [|[k g] rest IH]; intros Hall.
  - reflexivity.
  - destruct (Hall k g (or_introl eq_refl)) as [Hcol Hnone].
    cbn [remove_ensembles_loop]. unfold bind at 1, lift, getattr_column.
    rewrite Hcol. unfold bind at 1.
    rewrite Hnone, (drop_step_run [] st cur cur Hdf (drop_index_nil cur)).
    rewrite (with_df_same st cur Hdf).
    apply IH. intros k' g' Hin. apply (Hall k' g'). now right.
Qed.

(** C8. [remove_ensembles] is idempotent: on a catalog on which it returns, a
    second call returns too and leaves the working set, and the rest of the
    state, as the first call left them. *)
Theorem remove_ensembles_idempotent (st st' : State) :
  remove_ensembles st = (st', Ok tt) ->
  remove_ensembles st' = (st', Ok tt).
Proof.
  intros Hrun.
  pose proof (remove_ensembles_narrows st) as Hnarrow.
  rewrite Hrun in Hnarrow. unfold narrows in Hnarrow. simpl in Hnarrow.
  unfold remove_ensembles in Hrun.
  apply bind_ok_inv in Hrun. destruct Hrun as (d & st0 & Hget & Hrun).
  unfold get_df in Hget. destruct (df (self st)) as [d0|] eqn:Hdf; [|discriminate].
  injection Hget as <- <-.
  apply bind_ok_inv in Hrun. destruct Hrun as (groups & st0 & Hgroups & Hrun).
  unfold lift, groupby in Hgroups.
  destruct (forallb (fun c => has_column c d0) ["source_id"]) eqn:Hcols; [|discriminate].
  injection Hgroups as <- <-.
  destruct (df (self st')) as [d'|] eqn:Hdf'; [|contradiction].
  destruct Hnarrow as [Hcolumns Hsub].
  pose proof (remove_ensembles_loop_post _ _ _ Hrun) as Hpost.
  unfold remove_ensembles, bind at 1, get_df. rewrite Hdf'.
  unfold bind at 1, lift, groupby.
  replace (forallb (fun c => has_column c d') ["source_id"]) with true
    by (simpl in *; now rewrite (has_column_columns _ d0 d' Hcolumns)).
  apply (remove_ensembles_loop_noop _ _ d' Hdf').
  intros k g' Hin.
  pose proof (in_groups_of ["source_id"] d' k g' Hin) as ->.
  assert (Hk : In k (group_keys ["source_id"] d'))
    by (rewrite <- groups_of_keys; change k with (fst (k, get_group ["source_id"] d' k));
        now apply in_map).
  apply in_group_keys in Hk. destruct Hk as (r0 & Hr0 & Hkey0).
  (* the group of the first call that the survivors with key [k] came from *)
  assert (Hr0d : In r0 (rows d0)) by (eapply Subseq_in; eassumption).
  assert (Hkey0d : key_of ["source_id"] d0 r0 = k)
    by (rewrite <- Hkey0; symmetry; now apply key_of_columns).
  pose proof (row_key_in_groups ["source_id"] d0 r0 Hr0d) as Hown.
  rewrite Hkey0d in Hown.
  destruct (Hpost _ _ Hown) as [Hcol Hgone].
  split.
  { rewrite (has_column_columns "member_id" (get_group ["source_id"] d0 k));
      [exact Hcol | now rewrite !get_group_columns]. }
  assert (Hmember : forall r, In r (rows (get_group ["source_id"] d' k)) ->
            cell (columns d0) "member_id" r
            = smallest_member (column_values "member_id" (get_group ["source_id"] d0 k))).
  { intros r Hr. apply in_get_group in Hr. destruct Hr as [Hr Hkey].
    apply (not_other_member (get_group ["source_id"] d0 k)).
    - apply in_get_group. split; [eapply Subseq_in; eassumption|].
      rewrite <- Hkey. symmetry. now apply key_of_columns.
    - now apply (Hgone d'). }
  apply other_members_none. intros r Hr.
  rewrite get_group_columns, Hcolumns, (Hmember r Hr).
  symmetry. apply smallest_member_fixed.
  - intros Hnil.
    assert (Hin0 : In r0 (rows (get_group ["source_id"] d0 k)))
      by (apply in_get_group; tauto).
    apply (in_map (cell (columns (get_group ["source_id"] d0 k)) "member_id")) in Hin0.
    unfold column_values in Hnil. rewrite Hnil in Hin0. contradiction.
  - intros Hnil.
    apply (in_map (cell (columns (get_group ["source_id"] d' k)) "member_id")) in Hr.
    unfold column_values in Hnil. rewrite Hnil in Hr. contradiction.
  - intros s Hs. unfold column_values in Hs. apply in_map_iff in Hs.
    destruct Hs as (r' & <- & Hr').
    rewrite get_group_columns, Hcolumns. now apply Hmember.
Qed.

End Ensembles.

(** ** Key generation *)

Lemma all_equal_first_uniform (col : string) (d : DataFrame) :
  all_equal_first col d = true <-> uniform col d.
Proof.
  unfold all_equal_first, uniform, column_values.
  destruct (rows d) as [|r0 rs] eqn:Hrows; simpl.
  - split; [intros _ r r' [] | reflexivity].
  - rewrite String.eqb_refl. simpl. rewrite forallb_forall. split.
    + intros H r r' Hr Hr'.
      assert (Hfirst : forall x, r0 = x \/ In x rs ->
                cell (columns d) col r0 = cell (columns d) col x).
      { intros x [<- | Hx]; [reflexivity|].
        apply String.eqb_eq, H. now apply in_map. }
      rewrite <- (Hfirst r Hr), <- (Hfirst r' Hr'). reflexivity.
    + intros H v Hv. apply in_map_iff in Hv. destruct Hv as (r & <- & Hr).
      apply String.eqb_eq. apply H; [now left | now right].
Qed.

(** C6. When the ignored names are columns of the working set, key generation
    returns a key format, and a column is part of it exactly when it is not
    ignored by the caller, not one of [version], [data_node] and
    [globus_subject], and, in minimal mode, not uniform across the rows. In
    particular, in minimal mode, when every row has the activity [CMIP] and
    two rows differ in [source_id], a column the caller did not ignore, the
    key leaves [activity_id] out and holds [source_id]. *)
Theorem key_format_keeps_distinguishing_facets
    (minimal_keys : bool) (ignore_facets : list string) (d : DataFrame) :
  (forall c, In c ignore_facets -> In c (columns d)) ->
  (forall c, In c always_ignored -> In c (columns d)) ->
  exists key_format,
    output_key_format minimal_keys (ignore_facets ++ always_ignored)%list d = Ok key_format
    /\ (forall col,
          In col key_format <->
          In col (columns d) /\ ~ In col ignore_facets /\ ~ In col always_ignored
          /\ (minimal_keys = true -> ~ uniform col d))
    /\ (minimal_keys = true ->
        (forall r, In r (rows d) -> cell (columns d) "activity_id" r = "CMIP") ->
        (exists r r', In r (rows d) /\ In r' (rows d)
                      /\ cell (columns d) "source_id" r <> cell (columns d) "source_id" r') ->
        In "source_id" (columns d) -> ~ In "source_id" ignore_facets ->
        ~ In "activity_id" key_format /\ In "source_id" key_format).
Proof.
  intros Hignore Halways.
  assert (Hspec : forall col,
    In col (filter (fun col => if minimal_keys then negb (all_equal_first col d) else true)
              (filter (fun c => negb (name_in (ignore_facets ++ always_ignored) c))
                      (columns d))) <->
    In col (columns d) /\ ~ In col ignore_facets /\ ~ In col always_ignored
    /\ (minimal_keys = true -> ~ uniform col d)).
  { intros col. rewrite !filter_In, negb_true_iff, <- not_true_iff_false.
    rewrite name_in_spec, in_app_iff. rewrite <- all_equal_first_uniform.
    destruct minimal_keys.
    - rewrite negb_true_iff, <- not_true_iff_false. intuition.
    - intuition discriminate. }
  eexists. split; [|split].
  - unfold output_key_format, drop_columns.
    replace (forallb (name_in (columns d)) (ignore_facets ++ always_ignored)) with true.
    + simpl. reflexivity.
    + symmetry. apply forallb_forall. intros c Hc. apply name_in_spec.
      apply in_app_or in Hc. destruct Hc; auto.
  - exact Hspec.
  - intros -> Hcmip (r & r' & Hr & Hr' & Hdiff) Hcol Hnot. split.
    + intros Hin. apply Hspec in Hin. destruct Hin as (_ & _ & _ & Hn).
      apply Hn; [reflexivity|]. intros a b Ha Hb. now rewrite !Hcmip.
    + apply Hspec. repeat split; trivial.
      * simpl. intros [H | [H | [H | []]]]; discriminate.
      * intros _ Hu. apply Hdiff. now apply Hu.
Qed.

(** ** Materialization *)

Section Materialize.
Context {World Response Dataset DataTree : Type}.
Variable env : Env World Response Dataset DataTree.
#[local] Abbreviation State := (State World Response Dataset).

Lemma same_heap_refl (st : State) : same_heap st st.
Proof. reflexivity. Qed.

Lemma same_heap_trans (a b c : State) : same_heap a b -> same_heap b c -> same_heap a c.
Proof. unfold same_heap. congruence. Qed.

Lemma same_downloads_refl (st : State) : same_downloads st st.
Proof. reflexivity. Qed.

Lemma same_downloads_trans (a b c : State) :
  same_downloads a b -> same_downloads b c -> same_downloads a c.
Proof. unfold same_downloads. congruence. Qed.

Lemma extern_same_heap {A : Type} (c : Call Response Dataset)
    (f : World -> World * Result A) :
  preserves (St := State) same_heap (extern c f).
Proof. intros st. unfold extern. destruct (f (world st)). reflexivity. Qed.

Lemma extern_run {A : Type} (c : Call Response Dataset)
    (f : World -> World * Result A) (st : State) (w : World) (r : Result A) :
  f (world st) = (w, r) -> extern c f st = (logged st w [c], r).
Proof. intros H. unfold extern. rewrite H. reflexivity. Qed.

Lemma downloads_logged (st : State) (w : World) (cs : list (Call Response Dataset)) :
  downloads (logged st w cs)
  = downloads st + List.length (filter is_download cs).
Proof. unfold downloads, logged. simpl. now rewrite filter_app, length_app. Qed.

Lemma extern_same_downloads {A : Type} (c : Call Response Dataset)
    (f : World -> World * Result A) :
  is_download c = false -> preserves (St := State) same_downloads (extern c f).
Proof.
  intros Hc st. destruct (f (world st)) as [w r] eqn:E.
  rewrite (extern_run c f st w r E). unfold same_downloads. simpl.
  rewrite downloads_logged. simpl. rewrite Hc. simpl. lia.
Qed.

Lemma logged_logged (st : State) (w w' : World) (cs cs' : list (Call Response Dataset)) :
  logged (logged st w cs) w' cs' = logged st w' (cs ++ cs').
Proof. unfold logged. simpl. now rewrite app_assoc. Qed.

(** The chain when the local root has the files: no download. *)
Lemma resolve_files_local_hit (response : Response) (data_root : Path) (st : State)
    (w : World) (file : Path) (files : list Path) :
  response_to_local_filelist env response data_root (world st) = (w, Ok (file :: files)) ->
  resolve_files env response data_root st
  = (logged st w [CallLocalFilelist response data_root], Ok (file :: files)).
Proof.
  intros Hlocal. unfold resolve_files, bind, try_except.
  rewrite (extern_run _ _ st _ _ Hlocal). reflexivity.
Qed.

(** The chain when the local root has nothing, be it an empty list or a
    [FileNotFoundError]: the outcome is the outcome of the download. *)
Lemma resolve_files_local_miss (response : Response) (data_root : Path) (st : State)
    (w w' : World) (found : Result (list Path)) (downloaded : Result (list Path)) :
  response_to_local_filelist env response data_root (world st) = (w, found) ->
  found = Ok [] \/ found = Raise FileNotFoundError ->
  response_to_https_download env response (local_cache (self st)) w = (w', downloaded) ->
  resolve_files env response data_root st
  = (logged st w' [CallLocalFilelist response data_root;
                   CallHttpsDownload response (local_cache (self st))],
     downloaded).
Proof.
  intros Hlocal Hfound Hdown. unfold resolve_files, bind, try_except.
  rewrite (extern_run _ _ st _ _ Hlocal).
  destruct Hfound as [-> | ->]; simpl; unfold get_self;
    rewrite (extern_run _ _ (logged st w _) w' downloaded Hdown), logged_logged;
    reflexivity.
Qed.

Lemma open_files_same_downloads (key : string) (file_list : list Path)
    (ds : Dict Dataset) :
  preserves (St := State) same_downloads (open_files env key file_list ds).
Proof.
  unfold open_files.
  destruct (Nat.eqb (List.length file_list) 1);
    [|destruct (Nat.ltb 1 (List.length file_list))].
  - apply (preserves_bind same_downloads same_downloads_trans);
      [now apply extern_same_downloads | intros v; apply preserves_ret, same_downloads_refl].
  - apply (preserves_bind same_downloads same_downloads_trans);
      [now apply extern_same_downloads | intros v; apply preserves_ret, same_downloads_refl].
  - apply preserves_ret, same_downloads_refl.
Qed.

Lemma open_files_same_heap (key : string) (file_list : list Path) (ds : Dict Dataset) :
  preserves (St := State) same_heap (open_files env key file_list ds).
Proof.
  unfold open_files.
  destruct (Nat.eqb (List.length file_list) 1);
    [|destruct (Nat.ltb 1 (List.length file_list))].
  - apply (preserves_bind same_heap same_heap_trans);
      [apply extern_same_heap | intros v; apply preserves_ret, same_heap_refl].
  - apply (preserves_bind same_heap same_heap_trans);
      [apply extern_same_heap | intros v; apply preserves_ret, same_heap_refl].
  - apply preserves_ret, same_heap_refl.
Qed.

Lemma get_self_same_heap : preserves (St := State) same_heap get_self.
Proof. intros st. reflexivity. Qed.

Lemma resolve_files_same_heap (response : Response) (data_root : Path) :
  preserves (St := State) same_heap (resolve_files env response data_root).
Proof.
  unfold resolve_files.
  apply (preserves_bind same_heap same_heap_trans).
  - apply (preserves_try_except same_heap same_heap_trans).
    + apply extern_same_heap.
    + apply preserves_ret, same_heap_refl.
  - intros [|file files].
    + apply (preserves_bind same_heap same_heap_trans);
        [apply get_self_same_heap | intros c; apply extern_same_heap].
    + apply preserves_ret, same_heap_refl.
Qed.

Lemma materialize_row_same_heap (key_format : list string) (separator : string)
    (data_root : Path) (d : DataFrame) (row : FrameRow) (ds : Dict Dataset) :
  preserves (St := State) same_heap
    (materialize_row env key_format separator data_root d row ds).
Proof.
  unfold materialize_row.
  apply (preserves_bind same_heap same_heap_trans);
    [apply get_self_same_heap | intros c].
  apply (preserves_bind same_heap same_heap_trans).
  { destruct (index_id c);
      [apply preserves_ret | apply preserves_raise]; apply same_heap_refl. }
  intros idx.
  apply (preserves_bind same_heap same_heap_trans);
    [apply preserves_lift, same_heap_refl | intros subject].
  apply (preserves_bind same_heap same_heap_trans);
    [apply extern_same_heap | intros response].
  apply (preserves_bind same_heap same_heap_trans);
    [apply resolve_files_same_heap | intros file_list].
  apply open_files_same_heap.
Qed.

Lemma materialize_rows_same_heap (key_format : list string) (separator : string)
    (data_root : Path) (d : DataFrame) (todo : list FrameRow) (ds : Dict Dataset) :
  preserves (St := State) same_heap
    (materialize_rows env key_format separator data_root d todo ds).
Proof.
  revert ds. induction todo as [|row rest IH]; intros ds; cbn [materialize_rows].
  - apply preserves_ret, same_heap_refl.
  - apply (preserves_bind same_heap same_heap_trans);
      [apply materialize_row_same_heap | intros ds'; apply IH].
Qed.

(** The start of the loop body, up to the file listing of the record. *)
Lemma materialize_row_listing (key_format : list string) (separator : string)
    (data_root : Path) (d : DataFrame) (row : FrameRow) (ds : Dict Dataset)
    (st : State) (idx : string) (w : World) (response : Response) :
  index_id (self st) = Some idx ->
  has_column "globus_subject" d = true ->
  post_search env idx (cell (columns d) "globus_subject" row) (world st)
  = (w, Ok response) ->
  materialize_row env key_format separator data_root d row ds st
  = (file_list <- resolve_files env response data_root ;;
     open_files env (row_key key_format separator d row) file_list ds)
      (logged st w [CallPostSearch idx (cell (columns d) "globus_subject" row)]).
Proof.
  intros Hidx Hcol Hpost. unfold materialize_row.
  unfold bind at 1, get_self. rewrite Hidx.
  unfold bind at 1, ret at 1.
  unfold bind at 1, lift, getattr_cell. rewrite Hcol.
  unfold bind at 1. rewrite (extern_run _ _ st _ _ Hpost). reflexivity.
Qed.

Lemma dict_get_set (key : string) (v : Value Dataset) (ds : Dict Dataset) :
  dict_get key (dict_set key v ds) = Some v.
Proof.
  induction ds as [|[k' v'] ds IH]; simpl.
  - now rewrite String.eqb_refl.
  - destruct (String.eqb key k') eqn:E; simpl; rewrite ?String.eqb_refl, ?E; auto.
Qed.

(** C3, as the code has it. For a record whose file listing was obtained
    ([index_id] is set and [post_search] returned): when the local-root lookup
    finds nothing, which includes its raising [FileNotFoundError], and the
    download returns no file, the loop body does not raise and stores the
    failure marker under the key of the record. Nothing is said of a download
    that raises: the chain does not catch it. *)
Theorem unresolved_record_gets_failure_marker
    (key_format : list string) (separator : string) (data_root : Path)
    (d : DataFrame) (row : FrameRow) (ds : Dict Dataset) (st : State)
    (idx : string) (w1 w2 w3 : World) (response : Response)
    (found : Result (list Path)) :
  index_id (self st) = Some idx ->
  has_column "globus_subject" d = true ->
  post_search env idx (cell (columns d) "globus_subject" row) (world st)
  = (w1, Ok response) ->
  response_to_local_filelist env response data_root w1 = (w2, found) ->
  found = Ok [] \/ found = Raise FileNotFoundError ->
  response_to_https_download env response (local_cache (self st)) w2 = (w3, Ok []) ->
  exists ds',
    snd (materialize_row env key_format separator data_root d row ds st) = Ok ds'
    /\ dict_get (row_key key_format separator d row) ds' = Some (VStr could_not_obtain).
Proof.
  intros Hidx Hcol Hpost Hlocal Hfound Hdown.
  exists (dict_set (row_key key_format separator d row) (VStr could_not_obtain) ds).
  split; [|apply dict_get_set].
  rewrite (materialize_row_listing _ _ _ _ _ _ _ _ _ _ Hidx Hcol Hpost).
  unfold bind.
  rewrite (resolve_files_local_miss response data_root
             (logged st w1 [CallPostSearch idx (cell (columns d) "globus_subject" row)])
             w2 w3 found (Ok []) Hlocal Hfound Hdown).
  reflexivity.
Qed.

(** C7. For a record whose file listing was obtained, the download comes
    strictly after the local root: when the local-root lookup returns files,
    the download is not invoked for the record; when it returns nothing (an
    empty list, or [FileNotFoundError]), the download is invoked once. *)
Theorem download_only_after_local_miss
    (key_format : list string) (separator : string) (data_root : Path)
    (d : DataFrame) (row : FrameRow) (ds : Dict Dataset) (st : State)
    (idx : string) (w1 w2 : World) (response : Response)
    (found : Result (list Path)) :
  index_id (self st) = Some idx ->
  has_column "globus_subject" d = true ->
  post_search env idx (cell (columns d) "globus_subject" row) (world st)
  = (w1, Ok response) ->
  response_to_local_filelist env response data_root w1 = (w2, found) ->
  let st' := fst (materialize_row env key_format separator data_root d row ds st) in
  ((exists file files, found = Ok (file :: files)) -> downloads st' = downloads st)
  /\ (found = Ok [] \/ found = Raise FileNotFoundError ->
      downloads st' = S (downloads st)).
Proof.
  intros Hidx Hcol Hpost Hlocal st'. subst st'.
  rewrite (materialize_row_listing _ _ _ _ _ _ _ _ _ _ Hidx Hcol Hpost).
  split.
  - intros (file & files & ->). unfold bind.
    rewrite (resolve_files_local_hit response data_root
               (logged st w1 [CallPostSearch idx (cell (columns d) "globus_subject" row)])
               w2 file files Hlocal).
    rewrite (open_files_same_downloads _ _ _ _).
    rewrite !downloads_logged. simpl. lia.
  - intros Hfound.
    destruct (response_to_https_download env response (local_cache (self st)) w2)
      as [w3 downloaded] eqn:Hdown.
    unfold bind.
    rewrite (resolve_files_local_miss response data_root
               (logged st w1 [CallPostSearch idx (cell (columns d) "globus_subject" row)])
               w2 w3 found downloaded Hlocal Hfound Hdown).
    destruct downloaded as [file_list|e].
    + rewrite (open_files_same_downloads _ _ _ _).
      rewrite !downloads_logged. simpl. lia.
    + simpl. rewrite !downloads_logged. simpl. lia.
Qed.

(** ** The ignore list of the caller *)

Lemma to_datatree_heap (minimal_keys : bool) (ignore_facets : IgnoreFacets) (st : State) :
  heap (fst (to_datatree env minimal_keys ignore_facets st))
  = heap (fst (to_dataset_dict env minimal_keys ignore_facets "/" st)).
Proof.
  unfold to_datatree, bind.
  destruct (to_dataset_dict env minimal_keys ignore_facets "/" st) as [st' [ds|e]]; simpl.
  - apply (extern_same_heap (CallFromDict ds) (from_dict env ds) st').
  - reflexivity.
Qed.

Lemma to_dataset_dict_extends_list (minimal_keys : bool) (ref : nat)
    (separator : string) (st : State) (d : DataFrame) :
  df (self st) = Some d -> rows d <> [] ->
  heap (fst (to_dataset_dict env minimal_keys (IgnoreList ref) separator st)) ref
  = (heap st ref ++ always_ignored)%list.
Proof.
  intros Hdf Hrows. unfold to_dataset_dict.
  unfold bind at 1, get_self. rewrite Hdf.
  replace (Nat.eqb (len d) 0) with false
    by (unfold len; destruct (rows d); [contradiction | reflexivity]).
  unfold bind at 1, ret at 1.
  unfold bind at 1, extend.
  unfold bind at 1, deref.
  unfold bind at 1, lift.
  match goal with
  | |- context [output_key_format ?m ?i ?x] => destruct (output_key_format m i x) as [fmt|e]
  end.
  - rewrite (materialize_rows_same_heap _ _ _ _ _ _ _). simpl.
    now rewrite Nat.eqb_refl.
  - simpl. now rewrite Nat.eqb_refl.
Qed.

(** C10, as the code has it. When the working set is not empty and the caller
    passes a list object as [ignore_facets], [to_dataset_dict] and
    [to_datatree] append [version], [data_node] and [globus_subject] to that
    very object, however the call ends. *)
Theorem ignore_list_is_extended_in_place (minimal_keys : bool) (ref : nat)
    (separator : string) (st : State) (d : DataFrame) :
  df (self st) = Some d -> rows d <> [] ->
  heap (fst (to_dataset_dict env minimal_keys (IgnoreList ref) separator st)) ref
  = (heap st ref ++ ["version"; "data_node"; "globus_subject"])%list
  /\ heap (fst (to_datatree env minimal_keys (IgnoreList ref) st)) ref
     = (heap st ref ++ ["version"; "data_node"; "globus_subject"])%list.
Proof.
  intros Hdf Hrows. split.
  - now apply to_dataset_dict_extends_list with (d := d).
  - rewrite to_datatree_heap. now apply to_dataset_dict_extends_list with (d := d).
Qed.

(** ** The empty catalog *)

Lemma to_dataset_dict_empty (minimal_keys : bool) (ignore_facets : IgnoreFacets)
    (separator : string) (st : State) :
  working_set_empty (df (self st)) ->
  to_dataset_dict env minimal_keys ignore_facets separator st = (st, Raise no_entries).
Proof.
  intros Hempty. unfold to_dataset_dict, bind at 1, get_self.
  destruct (df (self st)) as [d|]; [|reflexivity].
  simpl in Hempty. unfold len. rewrite Hempty. reflexivity.
Qed.

Lemma groups_of_empty (by_cols : list string) (d : DataFrame) :
  rows d = [] -> groups_of by_cols d = [].
Proof. intros H. unfold groups_of, group_keys. rewrite H. reflexivity. Qed.

Lemma search_loop_all_answer (kwargs : Facets) (idxs : list (SearchIndex World))
    (tables : list DataFrame) :
  all_answer kwargs idxs tables ->
  forall (df_var : option DataFrame) (dfs : list DataFrame) (st : State),
  exists st',
    search_loop idxs kwargs df_var dfs st = (st', Ok (dfs ++ tables)%list)
    /\ self st' = self st.
Proof.
  induction 1 as [|index table idxs tables Hanswer _ IH]; intros df_var dfs st.
  - exists st. rewrite app_nil_r. split; reflexivity.
  - cbn [search_loop]. destruct (Hanswer (world st)) as [w' Hw].
    unfold bind at 1, try_except, bind at 1.
    rewrite (extern_run _ _ st w' _ Hw). unfold ret at 1.
    unfold bind at 1, ret at 1.
    destruct (IH (Some table) (dfs ++ [table])%list
                 (logged st w' [CallIndexSearch kwargs])) as (st' & Hrun & Hself).
    exists st'. rewrite Hrun, <- app_assoc. split; [reflexivity | exact Hself].
Qed.

(** C5. On a catalog whose working set is absent or has no row,
    [to_dataset_dict] and [to_datatree] raise [ValueError] with the message
    [No entries to retrieve.] before anything else happens: no collaborator is
    called and no state changes. An empty working set is no error for the
    filters, which return and leave it as it is when the grouping columns are
    there, nor for [search], which stores the table that [combine_results]
    returns, empty or not, once the indices have answered. *)
Theorem empty_catalog_fails_fast (st : State) :
  working_set_empty (df (self st)) ->
  (forall minimal_keys ignore_facets separator,
      to_dataset_dict env minimal_keys ignore_facets separator st
      = (st, Raise (ValueError "No entries to retrieve.")))
  /\ (forall minimal_keys ignore_facets,
         to_datatree env minimal_keys ignore_facets st
         = (st, Raise (ValueError "No entries to retrieve.")))
  /\ (forall complete d,
         df (self st) = Some d ->
         forallb (fun c => has_column c d) model_group_columns = true ->
         remove_incomplete complete st = (st, Ok tt))
  /\ (forall d,
         df (self st) = Some d -> has_column "source_id" d = true ->
         remove_ensembles st = (st, Ok tt))
  /\ (forall kwargs tables found,
         all_answer kwargs (indices (self st)) tables ->
         combine_results env tables = Ok found ->
         exists st',
           search env kwargs st = (st', Ok tt) /\ df (self st') = Some found).
Proof.
  intros Hempty. repeat split.
  - intros. now apply to_dataset_dict_empty.
  - intros. unfold to_datatree, bind.
    now rewrite (to_dataset_dict_empty _ _ "/" st Hempty).
  - intros complete d Hdf Hcols. rewrite Hdf in Hempty. simpl in Hempty.
    unfold remove_incomplete, bind, get_df, lift, groupby.
    rewrite Hdf, Hcols, (groups_of_empty _ d Hempty). reflexivity.
  - intros d Hdf Hcol. rewrite Hdf in Hempty. simpl in Hempty.
    unfold remove_ensembles, bind, get_df, lift, groupby.
    rewrite Hdf. simpl forallb. rewrite Hcol, (groups_of_empty _ d Hempty). reflexivity.
  - intros kwargs tables found Hanswer Hcombine.
    destruct (search_loop_all_answer kwargs _ _ Hanswer None [] st)
      as (st1 & Hloop & Hself).
    exists (with_df st1 found). split; [|reflexivity].
    unfold search, bind at 1, get_self. unfold bind at 1. rewrite Hloop. simpl app.
    unfold bind at 1, lift. rewrite Hcombine. reflexivity.
Qed.

(** ** search *)

(** C1, where the code departs from it. When the first configured index raises
    [ValueError] or [SearchAPIError], [search] raises [UnboundLocalError] to
    the caller, whatever the other indices would have returned, and so also
    when every index fails; and when a later index fails, the table appended
    for it is the table of the index before. *)
Theorem search_does_not_survive_a_failing_first_index
    (kwargs : Facets) (st : State) (msg : string)
    (rest : list (SearchIndex World)) (d : DataFrame) :
  snd (search env kwargs (with_indices st (failing_index (ValueError msg) :: rest)))
  = Raise (UnboundLocalError "df")
  /\ snd (search env kwargs (with_indices st (failing_index SearchAPIError :: rest)))
     = Raise (UnboundLocalError "df")
  /\ snd (search_loop [answering_index d; failing_index (ValueError msg)]
                      kwargs None [] st)
     = Ok [d; d].
Proof.
  repeat split.
Qed.

End Materialize.

(** ** The properties on concrete catalogs *)

Import Examples.

(** C2, where the code departs from it. The four extracted values are sorted
    as strings: for one model with the members [r2i1p1f1] and [r10i1p1f1],
    [remove_ensembles] keeps the record of [r10i1p1f1] and removes the record
    of [r2i1p1f1], the smaller of the two by integer value. *)
Theorem remove_ensembles_orders_digits_as_text :
  remove_ensembles (state_of (catalog_of [] (Some two_members) None) [])
  = (with_df (state_of (catalog_of [] (Some two_members) None) [])
       {| columns := facet_columns;
          rows := [(1, ["CMIP"; "CESM2"; "r10i1p1f1"; "gn"; "gpp"; "v1"; "node-a"; "s1"])] |},
     Ok tt).
Proof. vm_compute. reflexivity. Qed.

(** On the member identifiers of the example of the specification, the record
    of [r1i1p1f1] is the one that stays. *)
Example remove_ensembles_three_members :
  df (self (fst (remove_ensembles (state_of (catalog_of [] (Some three_members) None) []))))
  = Some {| columns := facet_columns;
            rows := [(1, ["CMIP"; "CESM2"; "r1i1p1f1"; "gn"; "gpp"; "v1"; "node-a"; "s1"])] |}.
Proof. vm_compute. reflexivity. Qed.

(** C3 does not hold as stated: with one record, nothing under the local root
    and a download that raises, [to_dataset_dict] raises the error of the
    download instead of storing the failure marker. *)
Lemma failed_download_raises_out_of_the_chain :
  snd (to_dataset_dict env_offline true IgnoreNone "."
         (state_of (catalog_of [] (Some one_record) (Some "esgf-index")) []))
  = Raise (OtherError "ConnectionError").
Proof. vm_compute. reflexivity. Qed.

Lemma unresolved_record_gets_failure_marker_witness :
  exists ds',
    snd (materialize_row env_no_files [] "." "/home/user/.esgf" one_record first_record []
           (state_of (catalog_of [] (Some one_record) (Some "esgf-index")) []))
    = Ok ds'
    /\ dict_get (row_key [] "." one_record first_record)
                ds'
       = Some (VStr could_not_obtain).
Proof.
  apply (unresolved_record_gets_failure_marker env_no_files [] "." "/home/user/.esgf"
           one_record first_record [] (state_of (catalog_of [] (Some one_record) (Some "esgf-index")) [])
           "esgf-index" tt tt tt "s0" (Raise FileNotFoundError)).
  - reflexivity.
  - reflexivity.
  - reflexivity.
  - reflexivity.
  - right. reflexivity.
  - reflexivity.
Defined.


Lemma empty_catalog_fails_fast_witness :
  to_dataset_dict env_local true IgnoreNone "."
    (state_of (catalog_of [answering_index no_record] (Some no_record) None) [])
  = (state_of (catalog_of [answering_index no_record] (Some no_record) None) [],
     Raise (ValueError "No entries to retrieve."))
  /\ remove_incomplete has_gpp_and_lai
       (state_of (catalog_of [answering_index no_record] (Some no_record) None) [])
     = (state_of (catalog_of [answering_index no_record] (Some no_record) None) [], Ok tt)
  /\ exists st',
       search env_local []
         (state_of (catalog_of [answering_index no_record] (Some no_record) None) [])
       = (st', Ok tt)
       /\ df (self st') = Some no_record.
Proof.
  destruct (empty_catalog_fails_fast env_local
              (state_of (catalog_of [answering_index no_record] (Some no_record) None) [])
              eq_refl)
    as (Hdict & _ & Hincomplete & _ & Hsearch).
  split; [apply Hdict|]. split.
  - apply (Hincomplete has_gpp_and_lai no_record); reflexivity.
  - apply (Hsearch [] [no_record] no_record).
    + repeat constructor. intros w. exists w. reflexivity.
    + reflexivity.
Defined.

Lemma key_format_keeps_distinguishing_facets_witness :
  exists key_format,
    output_key_format true always_ignored two_models = Ok key_format
    /\ ~ In "activity_id" key_format /\ In "source_id" key_format.
Proof.
  destruct (key_format_keeps_distinguishing_facets true [] two_models)
    as (key_format & Hformat & _ & Hcmip).
  - intros c [].
  - intros c Hc. simpl in *. intuition.
  - exists key_format. split; [exact Hformat|].
    apply Hcmip.
    + reflexivity.
    + intros r Hr. simpl in Hr.
      destruct Hr as [<- | [<- | [<- | []]]]; reflexivity.
    + exists (0, ["CMIP"; "CESM2"; "r1i1p1f1"; "gn"; "gpp"; "v1"; "node-a"; "s0"]),
             (2, ["CMIP"; "CanESM5"; "r1i1p1f1"; "gn"; "gpp"; "v1"; "node-a"; "s2"]).
      simpl. repeat split; [tauto | tauto | discriminate].
    + simpl. tauto.
    + intros [].
Defined.

Lemma download_only_after_local_miss_witness :
  downloads (fst (materialize_row env_local [] "." "/data/esgf" one_record first_record []
                    (state_of (catalog_of [] (Some one_record) (Some "esgf-index")) [])))
  = 0
  /\ downloads (fst (materialize_row env_no_files [] "." "/data/esgf" one_record first_record []
                       (state_of (catalog_of [] (Some one_record) (Some "esgf-index")) [])))
     = 1.
Proof.
  split.
  - apply (download_only_after_local_miss env_local [] "." "/data/esgf" one_record
             first_record [] (state_of (catalog_of [] (Some one_record) (Some "esgf-index")) [])
             "esgf-index" tt tt "s0" (Ok ["/data/esgf/s0.nc"])
             eq_refl eq_refl eq_refl eq_refl).
    exists "/data/esgf/s0.nc", []. reflexivity.
  - apply (download_only_after_local_miss env_no_files [] "." "/data/esgf" one_record
             first_record [] (state_of (catalog_of [] (Some one_record) (Some "esgf-index")) [])
             "esgf-index" tt tt "s0" (Raise FileNotFoundError)
             eq_refl eq_refl eq_refl eq_refl).
    right. reflexivity.
Defined.

Lemma remove_ensembles_idempotent_witness :
  remove_ensembles
    (fst (remove_ensembles (state_of (catalog_of [] (Some three_members) None) [])))
  = (fst (remove_ensembles (state_of (catalog_of [] (Some three_members) None) [])),
     Ok tt).
Proof.
  apply (remove_ensembles_idempotent
           (state_of (catalog_of [] (Some three_members) None) [])).
  vm_compute. reflexivity.
Defined.

(** The whole of [to_dataset_dict] on one record that no strategy resolves: the
    dictionary holds the marker under the key made of all the facets. *)
Example to_dataset_dict_marks_unresolved_record :
  snd (to_dataset_dict env_no_files false IgnoreNone "."
         (state_of (catalog_of [] (Some one_record) (Some "esgf-index")) []))
  = Ok [("CMIP.CESM2.r1i1p1f1.gn.gpp", VStr "Could not obtain this file.")].
Proof. vm_compute. reflexivity. Qed.

(** A catalog as [__init__] builds it has no attribute [index_id]: once a
    search has filled it, [to_dataset_dict] stops at the first record. *)
Example to_dataset_dict_without_index_id :
  snd (to_dataset_dict env_local true IgnoreNone "."
         (with_df (state_of (init (answering_index one_record)
                                  (answering_index one_record)
                                  (answering_index one_record)
                                  "/home/user/.esgf") [])
                  one_record))
  = Raise (AttributeError "index_id").
Proof. vm_compute. reflexivity. Qed.

(** The unique index matters to [remove_incomplete]: [df.drop] removes every
    row that carries a dropped label, here the complete group's first row
    together with the incomplete group that shares its label. *)
Example remove_incomplete_shared_label :
  df (self (fst (remove_incomplete has_gpp_and_lai
                   (state_of (catalog_of [] (Some shared_label) None) []))))
  = Some {| columns := facet_columns;
            rows := [(1, ["CMIP"; "CanESM5"; "r1i1p1f1"; "gn"; "lai"; "v1"; "node-b"; "s2"])] |}.
Proof. vm_compute. reflexivity. Qed.


(** C10 does not hold as stated: on a catalog without a working set the call
    raises before it reaches the list, which the caller finds unchanged. *)
Lemma ignore_list_untouched_on_empty_catalog :
  to_dataset_dict env_local true (IgnoreList 0) "."
    (state_of (catalog_of [] None None) ["institution_id"])
  = (state_of (catalog_of [] None None) ["institution_id"],
     Raise (ValueError "No entries to retrieve."))
  /\ heap (fst (to_dataset_dict env_local true (IgnoreList 0) "."
                  (state_of (catalog_of [] None None) ["institution_id"]))) 0
     = ["institution_id"].
Proof. split; reflexivity. Qed.

Lemma ignore_list_is_extended_in_place_witness :
  heap (fst (to_dataset_dict env_local true (IgnoreList 0) "."
               (state_of (catalog_of [] (Some one_record) None) ["institution_id"]))) 0
  = ["institution_id"; "version"; "data_node"; "globus_subject"].
Proof.
  apply (ignore_list_is_extended_in_place env_local true 0 "."
           (state_of (catalog_of [] (Some one_record) None) ["institution_id"])
           one_record).
  - reflexivity.
  - discriminate.
Defined.

(** * Further properties of the catalog *)

(** ** remove_incomplete, continued *)

Lemma NoDup_labels_filter (f : FrameRow -> bool) (l : list FrameRow) :
  NoDup (map fst l) -> NoDup (map fst (filter f l)).
Proof.
  induction l as [|x l IH]; simpl; intros Hnd; [constructor|].
  inversion Hnd as [|? ? Hnotin Hnd']; subst.
  destruct (f x); simpl; [|now apply IH].
  constructor; [|now apply IH].
  intros Hin. apply Hnotin. apply in_map_iff in Hin.
  destruct Hin as (r & Hfst & Hr). apply filter_In in Hr.
  rewrite <- Hfst. apply in_map. tauto.
Qed.

(** A group that [remove_incomplete] leaves is left whole. *)
Lemma group_of_complete_rows (complete : DataFrame -> bool) (d : DataFrame) (r : FrameRow) :
  In r (rows (complete_rows complete d)) ->
  get_group model_group_columns (complete_rows complete d)
            (key_of model_group_columns d r)
  = get_group model_group_columns d (key_of model_group_columns d r).
Proof.
  intros Hr. unfold complete_rows in *. simpl in Hr. apply filter_In in Hr.
  destruct Hr as [Hr Hc]. unfold get_group at 1.
  rewrite select_rows_twice. apply select_rows_ext_in. intros r' Hr'.
  change (key_of model_group_columns
            (select_rows (fun r0 => complete (get_group model_group_columns d
                                         (key_of model_group_columns d r0))) d) r')
    with (key_of model_group_columns d r').
  destruct (key_eqb (key_of model_group_columns d r') (key_of model_group_columns d r))
    eqn:Hk; [|apply andb_false_r].
  apply key_eqb_spec in Hk. rewrite Hk, Hc. reflexivity.
Qed.

Section FiltersContinued.
Context {World Response Dataset : Type}.
#[local] Abbreviation State := (State World Response Dataset).

Lemma remove_incomplete_run (complete : DataFrame -> bool) (st : State) (d : DataFrame) :
  df (self st) = Some d ->
  forallb (fun c => has_column c d) model_group_columns = true ->
  NoDup (index d) ->
  remove_incomplete complete st = (with_df st (complete_rows complete d), Ok tt).
Proof.
  intros Hdf Hcols Hnd.
  unfold remove_incomplete, bind, get_df, lift, groupby. rewrite Hdf, Hcols.
  rewrite (remove_incomplete_loop_run complete d (groups_of model_group_columns d) [] st);
    trivial.
  - f_equal. f_equal. unfold complete_rows.
    apply select_rows_ext_in. intros r Hr. simpl. apply kept_after_all.
    + intros k g Hin. now apply in_groups_of.
    + now apply row_key_in_groups.
  - simpl. rewrite groups_of_keys. apply group_keys_nodup.
  - intros k g Hin. now apply in_groups_of.
  - rewrite Hdf. f_equal. symmetry. now apply select_rows_all.
Qed.

Lemma complete_rows_groups (complete : DataFrame -> bool) (d : DataFrame)
    (k : GroupKey) (g : DataFrame) :
  In (k, g) (groups_of model_group_columns (complete_rows complete d)) ->
  g = get_group model_group_columns d k /\ complete g = true.
Proof.
  intros Hin.
  assert (Hk : In k (group_keys model_group_columns (complete_rows complete d))).
  { rewrite <- groups_of_keys. change k with (fst (k, g)). now apply in_map. }
  apply in_groups_of in Hin. apply in_group_keys in Hk.
  destruct Hk as (r & Hr & Hkey).
  change (key_of model_group_columns (complete_rows complete d) r)
    with (key_of model_group_columns d r) in Hkey.
  subst g. rewrite <- Hkey, (group_of_complete_rows complete d r Hr).
  split; [reflexivity|].
  unfold complete_rows in Hr. simpl in Hr. apply filter_In in Hr. tauto.
Qed.

(** X1. After [remove_incomplete] on a working set with a unique index and
    the grouping columns, every group of the working set satisfies the
    predicate and has all the records it had before the call. *)
Theorem remove_incomplete_leaves_whole_complete_groups
    (complete : DataFrame -> bool) (st : State) (d : DataFrame) :
  df (self st) = Some d ->
  forallb (fun c => has_column c d) model_group_columns = true ->
  NoDup (index d) ->
  exists d',
    df (self (fst (remove_incomplete complete st))) = Some d'
    /\ forall k g, In (k, g) (groups_of model_group_columns d') ->
         complete g = true /\ g = get_group model_group_columns d k.
Proof.
  intros Hdf Hcols Hnd. exists (complete_rows complete d).
  rewrite (remove_incomplete_run complete st d Hdf Hcols Hnd).
  split; [reflexivity|].
  intros k g Hin. apply complete_rows_groups in Hin. tauto.
Qed.

(** X2. [remove_incomplete] is idempotent on a working set with a unique
    index and the grouping columns: a second call with the same predicate
    returns and changes nothing. *)
Theorem remove_incomplete_idempotent
    (complete : DataFrame -> bool) (st : State) (d : DataFrame) :
  df (self st) = Some d ->
  forallb (fun c => has_column c d) model_group_columns = true ->
  NoDup (index d) ->
  remove_incomplete complete (fst (remove_incomplete complete st))
  = (fst (remove_incomplete complete st), Ok tt).
Proof.
  intros Hdf Hcols Hnd.
  rewrite (remove_incomplete_run complete st d Hdf Hcols Hnd). simpl fst.
  rewrite (remove_incomplete_run complete (with_df st (complete_rows complete d))
             (complete_rows complete d)).
  - rewrite with_df_twice. f_equal. f_equal.
    apply select_rows_all. intros r Hr.
    change (key_of model_group_columns (complete_rows complete d) r)
      with (key_of model_group_columns d r).
    rewrite (group_of_complete_rows complete d r Hr).
    unfold complete_rows in Hr. simpl in Hr. apply filter_In in Hr. tauto.
  - reflexivity.
  - exact Hcols.
  - unfold index, complete_rows. simpl. now apply NoDup_labels_filter.
Qed.

End FiltersContinued.

(** ** remove_ensembles, continued *)

(** Under a unique index, the labels that a group asks to drop select the
    records of the group with another identifier. *)
Lemma label_in_other_members (d : DataFrame) (k : GroupKey) (m : string) (r : FrameRow) :
  NoDup (index d) -> In r (rows d) ->
  label_in (other_members (get_group ["source_id"] d k) m) (fst r)
  = key_eqb (key_of ["source_id"] d r) k
    && negb (String.eqb (cell (columns d) "member_id" r) m).
Proof.
  intros Hnd Hin.
  destruct (label_in (other_members (get_group ["source_id"] d k) m) (fst r)) eqn:Hl.
  - apply label_in_spec in Hl. unfold other_members, index in Hl.
    apply in_map_iff in Hl. destruct Hl as (r' & Hfst & Hr').
    simpl in Hr'. apply filter_In in Hr'. destruct Hr' as [Hr' Hm].
    apply filter_In in Hr'. destruct Hr' as [Hr' Hk].
    assert (r' = r) by (eapply label_names_one_row; eassumption). subst r'.
    now rewrite Hk, Hm.
  - symmetry. apply not_true_is_false. intros Hboth.
    apply andb_true_iff in Hboth. destruct Hboth as [Hk Hm].
    assert (Hl' : label_in (other_members (get_group ["source_id"] d k) m) (fst r) = true).
    { apply label_in_spec. unfold other_members, index. apply in_map. simpl.
      apply filter_In. split; [|exact Hm]. apply filter_In. tauto. }
    congruence.
Qed.

Lemma ensembles_kept_app (d : DataFrame) (pre post : list (GroupKey * DataFrame))
    (r : FrameRow) :
  ensembles_kept d (pre ++ post) r = ensembles_kept d pre r && ensembles_kept d post r.
Proof. unfold ensembles_kept. apply forallb_app. Qed.

Lemma ensembles_kept_all (d : DataFrame) (groups : list (GroupKey * DataFrame))
    (r : FrameRow) :
  (forall k g, In (k, g) groups -> g = get_group ["source_id"] d k) ->
  In (key_of ["source_id"] d r, get_group ["source_id"] d (key_of ["source_id"] d r))
     groups ->
  ensembles_kept d groups r
  = String.eqb (cell (columns d) "member_id" r) (selected_member d r).
Proof.
  intros Hgroups Hown. unfold selected_member.
  destruct (String.eqb (cell (columns d) "member_id" r) _) eqn:Hm.
  - unfold ensembles_kept. apply forallb_forall. intros [k g] Hin. simpl.
    destruct (key_eqb (key_of ["source_id"] d r) k) eqn:Hk; [|reflexivity].
    apply key_eqb_spec in Hk. subst k. rewrite (Hgroups _ _ Hin). simpl. exact Hm.
  - apply not_true_is_false. intros Hall.
    unfold ensembles_kept in Hall. rewrite forallb_forall in Hall.
    specialize (Hall _ Hown). simpl in Hall.
    rewrite key_eqb_refl, Hm in Hall. discriminate.
Qed.

Section EnsemblesContinued.
Context {World Response Dataset : Type}.
#[local] Abbreviation State := (State World Response Dataset).

Lemma remove_ensembles_loop_run (d : DataFrame)
    (groups pre : list (GroupKey * DataFrame)) (st : State) :
  NoDup (index d) ->
  has_column "member_id" d = true ->
  NoDup (map fst (pre ++ groups)) ->
  (forall k g, In (k, g) groups -> g = get_group ["source_id"] d k) ->
  df (self st) = Some (select_rows (ensembles_kept d pre) d) ->
  remove_ensembles_loop groups st
  = (with_df st (select_rows (ensembles_kept d (pre ++ groups)) d), Ok tt).
Proof.
  intros Hnd Hcol. revert pre st.
  induction groups as [|[k g] rest IH]; intros pre st Hkeys Hgroups Hdf.
  - rewrite app_nil_r. simpl. unfold ret. now rewrite with_df_same.
  - assert (Hg : g = get_group ["source_id"] d k) by (apply Hgroups; now left).
    assert (Hrest : forall k' g', In (k', g') rest -> g' = get_group ["source_id"] d k')
      by (intros; apply Hgroups; now right).
    assert (Happ : (pre ++ (k, g) :: rest = (pre ++ [(k, g)]) ++ rest)%list)
      by (rewrite <- app_assoc; reflexivity).
    rewrite Happ in Hkeys |- *.
    cbn [remove_ensembles_loop]. unfold bind at 1, lift, getattr_column.
    replace (has_column "member_id" g) with true by (subst g; symmetry; exact Hcol).
    unfold bind at 1.
    set (m := smallest_member (column_values "member_id" g)).
    assert (Hlabels : forallb (label_in (index (select_rows (ensembles_kept d pre) d)))
                              (other_members g m) = true).
    { apply forallb_forall. intros l Hl. unfold other_members, index in Hl.
      apply in_map_iff in Hl. destruct Hl as (r & <- & Hr).
      simpl in Hr. apply filter_In in Hr. destruct Hr as [Hr _].
      rewrite Hg in Hr. apply in_get_group in Hr. destruct Hr as [Hr Hkey].
      apply label_in_spec. unfold index. apply in_map. simpl.
      apply filter_In. split; [assumption|].
      unfold ensembles_kept. apply forallb_forall. intros [k' g'] Hin'. simpl.
      destruct (key_eqb (key_of ["source_id"] d r) k') eqn:Hk'; [|reflexivity].
      exfalso. apply key_eqb_spec in Hk'.
      rewrite map_app, map_app in Hkeys. simpl in Hkeys.
      rewrite <- app_assoc in Hkeys. apply NoDup_remove_2 in Hkeys.
      apply Hkeys. apply in_or_app. left.
      replace k with (fst (k', g')) by (simpl; congruence).
      now apply in_map. }
    erewrite drop_step_run;
      [|eassumption|unfold drop_index; rewrite Hlabels; reflexivity].
    rewrite (IH (pre ++ [(k, g)])%list); [reflexivity|assumption..|].
    rewrite with_df_df. f_equal. rewrite select_rows_twice.
    apply select_rows_ext_in. intros r Hr.
    rewrite ensembles_kept_app. f_equal.
    unfold ensembles_kept at 1. simpl. rewrite andb_true_r. fold m.
    rewrite Hg at 1. rewrite (label_in_other_members d k m r Hnd Hr).
    destruct (key_eqb (key_of ["source_id"] d r) k),
             (String.eqb (cell (columns d) "member_id" r) m); reflexivity.
Qed.

Lemma remove_ensembles_run (st : State) (d : DataFrame) :
  df (self st) = Some d ->
  has_column "source_id" d = true ->
  has_column "member_id" d = true ->
  NoDup (index d) ->
  remove_ensembles st = (with_df st (selected_rows d), Ok tt).
Proof.
  intros Hdf Hsource Hmember Hnd.
  unfold remove_ensembles, bind, get_df, lift, groupby. rewrite Hdf.
  simpl forallb. rewrite Hsource. simpl.
  rewrite (remove_ensembles_loop_run d (groups_of ["source_id"] d) [] st); trivial.
  - f_equal. f_equal. unfold selected_rows.
    apply select_rows_ext_in. intros r Hr. simpl. apply ensembles_kept_all.
    + intros k g Hin. now apply in_groups_of.
    + now apply row_key_in_groups.
  - simpl. rewrite groups_of_keys. apply group_keys_nodup.
  - intros k g Hin. now apply in_groups_of.
  - rewrite Hdf. f_equal. symmetry. now apply select_rows_all.
Qed.

(** X3. On a working set with a unique index and the columns [source_id] and
    [member_id], [remove_ensembles] returns, and the records left are exactly
    those whose [member_id] is the identifier selected for their model: the
    first of the sorted extraction over the records that the model had before
    the call, formatted again. *)
Theorem remove_ensembles_keeps_selected_member (st : State) (d : DataFrame) :
  df (self st) = Some d ->
  has_column "source_id" d = true ->
  has_column "member_id" d = true ->
  NoDup (index d) ->
  remove_ensembles st = (with_df st (selected_rows d), Ok tt)
  /\ forall r, In r (rows (selected_rows d)) <->
       In r (rows d) /\ cell (columns d) "member_id" r = selected_member d r.
Proof.
  intros Hdf Hsource Hmember Hnd. split.
  - now apply remove_ensembles_run.
  - intros r. unfold selected_rows. simpl. rewrite filter_In, String.eqb_eq. tauto.
Qed.

End EnsemblesContinued.

(** ** The order of the sorted extraction *)

Lemma str_ltb_lt (a b : string) : String.ltb a b = true <-> String.compare a b = Lt.
Proof. unfold String.ltb. destruct (String.compare a b); split; congruence. Qed.

Lemma str_ltb_trans (a b c : string) :
  String.ltb a b = true -> String.ltb b c = true -> String.ltb a c = true.
Proof.
  rewrite !str_ltb_lt.
  change String.compare with OrderedTypeEx.String_as_OT.cmp.
  rewrite !OrderedTypeEx.String_as_OT.cmp_lt.
  apply OrderedTypeEx.String_as_OT.lt_trans.
Qed.

Lemma str_ltb_neq (a b : string) : String.ltb a b = true -> String.eqb a b = false.
Proof.
  rewrite str_ltb_lt. intros Hlt. apply String.eqb_neq. intros ->.
  assert (H : String.compare b b = Eq)
    by (apply (proj2 (OrderedTypeEx.String_as_OT.cmp_eq b b)); reflexivity).
  congruence.
Qed.

Lemma str_ltb_total (a b : string) :
  String.eqb a b = false -> String.ltb a b = false -> String.ltb b a = true.
Proof.
  intros Hneq Hnlt. apply str_ltb_lt. rewrite String.compare_antisym.
  destruct (String.compare a b) eqn:E.
  - apply String.compare_eq_iff in E. apply String.eqb_neq in Hneq. contradiction.
  - apply str_ltb_lt in E. congruence.
  - reflexivity.
Qed.

Lemma key_leb_total (a b : GroupKey) : key_leb a b = true \/ key_leb b a = true.
Proof.
  revert b. induction a as [|x a IH]; intros [|y b]; simpl; auto.
  rewrite (String.eqb_sym y x).
  destruct (String.eqb x y) eqn:E; [apply IH|].
  destruct (String.ltb x y) eqn:L; [now left|].
  right. now apply str_ltb_total.
Qed.

Lemma key_leb_trans (a b c : GroupKey) :
  key_leb a b = true -> key_leb b c = true -> key_leb a c = true.
Proof.
  revert b c. induction a as [|x a IH]; intros [|y b] [|z c]; simpl; try congruence.
  destruct (String.eqb x y) eqn:Exy.
  - apply String.eqb_eq in Exy. subst y.
    destruct (String.eqb x z); [apply IH | trivial].
  - intros Hxy. destruct (String.eqb y z) eqn:Eyz.
    + apply String.eqb_eq in Eyz. subst z. now rewrite Exy.
    + intros Hyz. rewrite (str_ltb_neq x z) by (eapply str_ltb_trans; eassumption).
      eapply str_ltb_trans; eassumption.
Qed.

Lemma extracted_leb_total (a b : option Member) :
  extracted_leb a b = true \/ extracted_leb b a = true.
Proof.
  destruct a as [[[[a0 a1] a2] a3]|], b as [[[[b0 b1] b2] b3]|];
    cbn [extracted_leb]; auto.
  exact (key_leb_total [a0; a1; a2; a3] [b0; b1; b2; b3]).
Qed.

Lemma extracted_leb_trans (a b c : option Member) :
  extracted_leb a b = true -> extracted_leb b c = true -> extracted_leb a c = true.
Proof.
  destruct a as [[[[a0 a1] a2] a3]|], b as [[[[b0 b1] b2] b3]|],
           c as [[[[c0 c1] c2] c3]|]; cbn [extracted_leb]; try congruence.
  exact (key_leb_trans [a0; a1; a2; a3] [b0; b1; b2; b3] [c0; c1; c2; c3]).
Qed.

Lemma hd_insert_sorted {A : Type} (leb : A -> A -> bool) (x d : A) (l : list A) :
  hd d (insert_sorted leb x l)
  = match l with
    | [] => x
    | y :: _ => if leb x y then x else y
    end.
Proof. destruct l as [|y l]; simpl; [reflexivity|]. now destruct (leb x y). Qed.

(** The first element of a sorted list is below every element, for a total
    and transitive comparison. *)
Lemma hd_stable_sort_least {A : Type} (leb : A -> A -> bool) (d : A) (l : list A) :
  (forall a b, leb a b = true \/ leb b a = true) ->
  (forall a b c, leb a b = true -> leb b c = true -> leb a c = true) ->
  forall x, In x l -> leb (hd d (stable_sort leb l)) x = true.
Proof.
  intros Htotal Htrans. induction l as [|y l IH]; intros x Hin; [contradiction|].
  cbn [stable_sort]. rewrite hd_insert_sorted.
  destruct (stable_sort leb l) as [|h s] eqn:Hs.
  - assert (l = []).
    { apply Permutation_nil. rewrite <- Hs. apply stable_sort_perm. }
    subst l. destruct Hin as [<- | []]. destruct (Htotal y y); assumption.
  - simpl in IH. destruct (leb y h) eqn:Hyh.
    + destruct Hin as [<- | Hin].
      * destruct (Htotal y y); assumption.
      * eapply Htrans; [exact Hyh | now apply IH].
    + destruct Hin as [<- | Hin]; [|now apply IH].
      destruct (Htotal y h); [congruence | assumption].
Qed.

Lemma exact_member_id_fixed (s : string) :
  exact_member_id s -> format_member (extract_member s) = s.
Proof.
  intros (m & Hm & ->). now rewrite (extract_format_member m Hm).
Qed.

(** X4. For the member identifiers of a model, the extraction that
    [remove_ensembles] selects is the extraction of one of them and is below
    the extraction of each of them when the four values are compared as
    strings, left to right; an identifier without a match comes after every
    identifier with one, so that it is selected only when none matches. *)
Theorem selected_member_is_least_as_text (member_ids : list string) :
  member_ids <> [] ->
  let first := hd None (sort_values (map extract_member member_ids)) in
  smallest_member member_ids = format_member first
  /\ (exists s, In s member_ids /\ extract_member s = first)
  /\ (forall s, In s member_ids -> extracted_leb first (extract_member s) = true)
  /\ (first = None -> forall s, In s member_ids -> extract_member s = None).
Proof.
  intros Hne first.
  assert (Hleast : forall s, In s member_ids ->
                     extracted_leb first (extract_member s) = true).
  { intros s Hs. apply hd_stable_sort_least.
    - apply extracted_leb_total.
    - apply extracted_leb_trans.
    - now apply in_map. }
  split; [reflexivity|]. split; [|split].
  - assert (Hin : In first (map extract_member member_ids)).
    { apply hd_stable_sort_in. destruct member_ids; [contradiction | discriminate]. }
    apply in_map_iff in Hin. destruct Hin as (s & Hs & Hin). now exists s.
  - exact Hleast.
  - intros Hnone s Hs. specialize (Hleast s Hs). rewrite Hnone in Hleast.
    destruct (extract_member s); [discriminate | reflexivity].
Qed.

Lemma smallest_member_exact (member_ids : list string) :
  member_ids <> [] -> (forall s, In s member_ids -> exact_member_id s) ->
  In (smallest_member member_ids) member_ids.
Proof.
  intros Hne Hexact.
  assert (Hin : In (hd None (sort_values (map extract_member member_ids)))
                   (map extract_member member_ids)).
  { apply hd_stable_sort_in. destruct member_ids; [contradiction | discriminate]. }
  apply in_map_iff in Hin. destruct Hin as (s & Hs & Hin).
  unfold smallest_member. rewrite <- Hs, (exact_member_id_fixed s (Hexact s Hin)).
  exact Hin.
Qed.


Lemma group_member_ids (d : DataFrame) (k : GroupKey) (s : string) :
  In s (column_values "member_id" (get_group ["source_id"] d k)) <->
  exists r, In r (rows d) /\ key_of ["source_id"] d r = k
            /\ cell (columns d) "member_id" r = s.
Proof.
  unfold column_values. rewrite in_map_iff. split.
  - intros (r & Hs & Hr). apply in_get_group in Hr. exists r. tauto.
  - intros (r & Hr & Hk & Hs). exists r. split; [exact Hs|].
    apply in_get_group. tauto.
Qed.

Lemma same_source_same_key (d : DataFrame) (r r' : FrameRow) :
  cell (columns d) "source_id" r = cell (columns d) "source_id" r' <->
  key_of ["source_id"] d r = key_of ["source_id"] d r'.
Proof. unfold key_of. simpl. split; congruence. Qed.

Lemma selected_rows_keep_every_model (d : DataFrame) (r : FrameRow) :
  In r (rows d) ->
  (forall r', In r' (rows d) ->
     cell (columns d) "source_id" r' = cell (columns d) "source_id" r ->
     exact_member_id (cell (columns d) "member_id" r')) ->
  exists kept,
    In kept (rows (selected_rows d))
    /\ cell (columns d) "source_id" kept = cell (columns d) "source_id" r.
Proof.
  intros Hr Hexact.
  assert (Hin : In (selected_member d r)
                   (column_values "member_id"
                      (get_group ["source_id"] d (key_of ["source_id"] d r)))).
  { apply smallest_member_exact.
    - intros Hnil.
      assert (H : In (cell (columns d) "member_id" r)
                     (column_values "member_id"
                        (get_group ["source_id"] d (key_of ["source_id"] d r))))
        by (apply group_member_ids; now exists r).
      rewrite Hnil in H. contradiction.
    - intros s Hs. apply group_member_ids in Hs. destruct Hs as (r' & Hr' & Hk & <-).
      apply Hexact; [assumption | now apply same_source_same_key]. }
  apply group_member_ids in Hin. destruct Hin as (kept & Hkept & Hk & Hm).
  exists kept. split; [|now apply same_source_same_key].
  unfold selected_rows. simpl. apply filter_In. split; [assumption|].
  apply String.eqb_eq. unfold selected_member. now rewrite Hk.
Qed.


(** X7. Reading a member identifier and formatting it are inverse on
    well-formed identifiers: four runs of digits formatted as
    [r..i..p..f..] are extracted as those four runs, leading zeros
    included, and what is extracted from any string is four runs of digits. *)
Theorem member_id_round_trip (r i p f : string) :
  number r -> number i -> number p -> number f ->
  extract_member ("r" ++ r ++ "i" ++ i ++ "p" ++ p ++ "f" ++ f) = Some (r, i, p, f)
  /\ forall s m, extract_member s = Some m ->
       four_numbers m /\ extract_member (format_member (Some m)) = Some m.
Proof.
  intros Hr Hi Hp Hf. split.
  - apply (extract_format_member (r, i, p, f)). simpl. tauto.
  - intros s m Hs. pose proof (extract_member_numbers s m Hs) as Hm.
    split; [exact Hm | now apply extract_format_member].
Qed.

Section EnsemblesSurvivors.
Context {World Response Dataset : Type}.
#[local] Abbreviation State := (State World Response Dataset).

Lemma remove_ensembles_survivors (st st' : State) :
  remove_ensembles st = (st', Ok tt) ->
  exists d d',
    df (self st) = Some d /\ df (self st') = Some d'
    /\ columns d' = columns d /\ Subseq (rows d') (rows d)
    /\ forall r, In r (rows d') -> cell (columns d) "member_id" r = selected_member d r.
Proof.
  intros Hrun.
  pose proof (remove_ensembles_narrows st) as Hnarrow.
  rewrite Hrun in Hnarrow. unfold narrows in Hnarrow. simpl in Hnarrow.
  unfold remove_ensembles in Hrun.
  apply bind_ok_inv in Hrun. destruct Hrun as (d & st0 & Hget & Hrun).
  unfold get_df in Hget. destruct (df (self st)) as [d0|] eqn:Hdf; [|discriminate].
  injection Hget as <- <-.
  apply bind_ok_inv in Hrun. destruct Hrun as (groups & st0 & Hgroups & Hrun).
  unfold lift, groupby in Hgroups.
  destruct (forallb (fun c => has_column c d0) ["source_id"]); [|discriminate].
  injection Hgroups as <- <-.
  destruct (df (self st')) as [d'|] eqn:Hdf'; [|contradiction].
  destruct Hnarrow as [Hcolumns Hsub].
  exists d0, d'. repeat split; trivial.
  intros r Hr.
  assert (Hrd : In r (rows d0)) by (eapply Subseq_in; eassumption).
  destruct (remove_ensembles_loop_post _ _ _ Hrun _ _
              (row_key_in_groups ["source_id"] d0 r Hrd)) as [_ Hgone].
  apply (not_other_member (get_group ["source_id"] d0 (key_of ["source_id"] d0 r))).
  - apply in_get_group. tauto.
  - now apply (Hgone d').
Qed.

(** X8. After a call of [remove_ensembles] that returned, whatever the index
    of the working set, two records of the same [source_id] have the same
    [member_id]. *)
Theorem remove_ensembles_one_member_per_model (st st' : State) (d' : DataFrame) :
  remove_ensembles st = (st', Ok tt) ->
  df (self st') = Some d' ->
  forall r r', In r (rows d') -> In r' (rows d') ->
    cell (columns d') "source_id" r = cell (columns d') "source_id" r' ->
    cell (columns d') "member_id" r = cell (columns d') "member_id" r'.
Proof.
  intros Hrun Hdf' r r' Hr Hr' Hsource.
  destruct (remove_ensembles_survivors st st' Hrun)
    as (d & d1 & _ & Hdf1 & Hcolumns & _ & Hmember).
  rewrite Hdf' in Hdf1. injection Hdf1 as <-.
  rewrite Hcolumns in *. rewrite (Hmember r Hr), (Hmember r' Hr').
  unfold selected_member. apply same_source_same_key in Hsource. now rewrite Hsource.
Qed.

(** X5. When every member identifier of a model is the four-number pattern
    and nothing else, [remove_ensembles], on a working set with a unique index
    and the two columns, leaves at least one record of that model. *)
Theorem remove_ensembles_keeps_every_model (st : State) (d : DataFrame) (r : FrameRow) :
  df (self st) = Some d ->
  has_column "source_id" d = true ->
  has_column "member_id" d = true ->
  NoDup (index d) ->
  In r (rows d) ->
  (forall r', In r' (rows d) ->
     cell (columns d) "source_id" r' = cell (columns d) "source_id" r ->
     exact_member_id (cell (columns d) "member_id" r')) ->
  exists d' kept,
    df (self (fst (remove_ensembles st))) = Some d'
    /\ In kept (rows d')
    /\ cell (columns d') "source_id" kept = cell (columns d) "source_id" r.
Proof.
  intros Hdf Hsource Hmember Hnd Hr Hexact.
  rewrite (remove_ensembles_run st d Hdf Hsource Hmember Hnd).
  destruct (selected_rows_keep_every_model d r Hr Hexact) as (kept & Hkept & Hsame).
  exists (selected_rows d), kept. repeat split; assumption.
Qed.


End EnsemblesSurvivors.

(** ** unique and model_groups *)

Lemma unique_values_in (l : list string) (v : string) :
  In v (unique_values l) <-> In v l.
Proof.
  induction l as [|x l IH]; simpl; [tauto|].
  rewrite filter_In, IH, negb_true_iff, String.eqb_neq.
  destruct (string_dec x v) as [-> | Hneq]; [tauto|].
  split; [tauto|]. intros [H | H]; [contradiction|]. right. split; [assumption|congruence].
Qed.

Lemma unique_values_nodup (l : list string) : NoDup (unique_values l).
Proof.
  induction l as [|x l IH]; simpl; constructor.
  - rewrite filter_In, negb_true_iff, String.eqb_neq. tauto.
  - now apply NoDup_filter.
Qed.

Lemma out_get_set (col c : string) (values : list string)
    (out : list (string * list string)) :
  out_get col (out_set c values out)
  = if String.eqb col c then Some values else out_get col out.
Proof.
  induction out as [|[c' v'] out IH]; simpl.
  - reflexivity.
  - destruct (String.eqb c c') eqn:Ec; simpl.
    + apply String.eqb_eq in Ec. subst c'. now destruct (String.eqb col c).
    + rewrite IH. destruct (String.eqb col c') eqn:Ecol; [|reflexivity].
      apply String.eqb_eq in Ecol. subst c'.
      rewrite String.eqb_sym in Ec. now rewrite Ec.
Qed.

Lemma out_get_unique_loop (d : DataFrame) (cols : list string)
    (out : list (string * list string)) (col : string) :
  out_get col (unique_loop d cols out)
  = if name_in cols col then Some (unique_values (column_values col d))
    else out_get col out.
Proof.
  revert out. induction cols as [|c cols IH]; intros out; [reflexivity|].
  cbn [unique_loop]. rewrite IH, out_get_set.
  unfold name_in. cbn [existsb]. fold (name_in cols col).
  destruct (name_in cols col); [now rewrite orb_true_r|].
  rewrite orb_false_r.
  destruct (String.eqb col c) eqn:E; [|reflexivity].
  apply String.eqb_eq in E. now subst c.
Qed.

Lemma list_sum_map_add {A : Type} (f g : A -> nat) (l : list A) :
  list_sum (map (fun x => f x + g x) l) = list_sum (map f l) + list_sum (map g l).
Proof. induction l as [|x l IH]; simpl; [reflexivity | rewrite IH; lia]. Qed.

Lemma one_key_matches (k : GroupKey) (keys : list GroupKey) :
  NoDup keys -> In k keys ->
  list_sum (map (fun k' => if key_eqb k k' then 1 else 0) keys) = 1.
Proof.
  induction keys as [|k0 keys IH]; intros Hnd Hin; [contradiction|].
  inversion Hnd as [|? ? Hnotin Hnd']; subst. simpl.
  destruct Hin as [-> | Hin].
  - rewrite key_eqb_refl.
    replace (list_sum (map (fun k' => if key_eqb k k' then 1 else 0) keys)) with 0;
      [reflexivity|].
    symmetry. clear IH Hnd Hnd'. induction keys as [|k1 keys IHk]; [reflexivity|].
    simpl. destruct (key_eqb k k1) eqn:E.
    + apply key_eqb_spec in E. subst k1. exfalso. apply Hnotin. now left.
    + apply IHk. intros H. apply Hnotin. now right.
  - destruct (key_eqb k k0) eqn:E.
    + apply key_eqb_spec in E. subst k0. contradiction.
    + now apply IH.
Qed.

(** The sizes of the groups add up to the size of the list. *)
Lemma group_sizes_add_up (key : FrameRow -> GroupKey) (keys : list GroupKey)
    (l : list FrameRow) :
  NoDup keys -> (forall r, In r l -> In (key r) keys) ->
  list_sum (map (fun k => List.length (filter (fun r => key_eqb (key r) k) l)) keys)
  = List.length l.
Proof.
  intros Hnd. induction l as [|r l IH]; intros Hkeys.
  - simpl. induction keys as [|k keys IHk]; [reflexivity|].
    inversion Hnd; subst. simpl. now apply IHk.
  - simpl.
    rewrite (map_ext _ (fun k => (if key_eqb (key r) k then 1 else 0)
                                 + List.length (filter (fun r0 => key_eqb (key r0) k) l)))
      by (intros k; now destruct (key_eqb (key r) k)).
    rewrite list_sum_map_add, (one_key_matches (key r) keys Hnd), IH; auto.
    + intros r' Hr'. apply Hkeys. now right.
    + apply Hkeys. now left.
Qed.

Section ViewsProperties.
Context {World Response Dataset : Type}.
#[local] Abbreviation State := (State World Response Dataset).

(** X9. [unique] is a view: it returns without changing the state. On a
    working set with the columns [id] and [version] it reports exactly the
    other columns, and for each of them the values that occur in the column,
    each once; without one of the two columns it raises [KeyError]. *)
Theorem unique_reports_each_facet (st : State) (d : DataFrame) :
  df (self st) = Some d ->
  (In "id" (columns d) -> In "version" (columns d) ->
   exists out,
     unique st = (st, Ok out)
     /\ (forall col, (exists values, out_get col out = Some values) <->
                     In col (columns d) /\ col <> "id" /\ col <> "version")
     /\ (forall col values, out_get col out = Some values ->
           NoDup values
           /\ forall v, In v values <->
                        exists r, In r (rows d) /\ cell (columns d) col r = v))
  /\ (~ (In "id" (columns d) /\ In "version" (columns d)) ->
      exists key, unique st = (st, Raise (KeyError key))).
Proof.
  intros Hdf. split.
  - intros Hid Hversion.
    assert (Hget : forall col,
      out_get col (unique_loop d (filter (fun c => negb (name_in ["id"; "version"] c))
                                         (columns d)) [])
      = if name_in (filter (fun c => negb (name_in ["id"; "version"] c)) (columns d)) col
        then Some (unique_values (column_values col d)) else None).
    { intros col. now rewrite out_get_unique_loop. }
    assert (Hin : forall col,
      name_in (filter (fun c => negb (name_in ["id"; "version"] c)) (columns d)) col = true
      <-> In col (columns d) /\ col <> "id" /\ col <> "version").
    { intros col. rewrite name_in_spec, filter_In, negb_true_iff.
      rewrite <- not_true_iff_false, name_in_spec. simpl. intuition congruence. }
    eexists. split; [|split].
    + unfold unique, bind, get_df, lift, drop_columns. rewrite Hdf. simpl forallb.
      rewrite (proj2 (name_in_spec (columns d) "id") Hid).
      rewrite (proj2 (name_in_spec (columns d) "version") Hversion).
      simpl. unfold ret. reflexivity.
    + intros col. rewrite Hget, <- Hin.
      destruct (name_in _ col); split; intros H; try discriminate.
      * reflexivity.
      * now eexists.
      * destruct H; discriminate.
    + intros col values. rewrite Hget.
      destruct (name_in _ col); [|discriminate].
      intros H. injection H as <-. split; [apply unique_values_nodup|].
      intros v. rewrite unique_values_in. unfold column_values. rewrite in_map_iff.
      split; intros (r & H1 & H2); exists r; tauto.
  - intros Hmissing. eexists.
    unfold unique, bind, get_df, lift, drop_columns. rewrite Hdf. simpl forallb.
    destruct (name_in (columns d) "id") eqn:Hid;
      [destruct (name_in (columns d) "version") eqn:Hversion|]; simpl.
    + exfalso. apply Hmissing. split; now apply name_in_spec.
    + reflexivity.
    + reflexivity.
Qed.

(** X10. [model_groups] is a view: on a working set with the grouping columns
    and [variable_id] it returns without changing the state, with one entry
    for each combination of [source_id], [member_id] and [grid_label] that
    occurs; every count is at least one, it is the number of records of the
    combination, and the counts add up to the number of records. *)
Theorem model_groups_counts_every_record (st : State) (d : DataFrame) :
  df (self st) = Some d ->
  forallb (fun c => has_column c d) model_group_columns = true ->
  has_column "variable_id" d = true ->
  exists out,
    model_groups st = (st, Ok out)
    /\ NoDup (map fst out)
    /\ (forall k, In k (map fst out) <->
                  exists r, In r (rows d) /\ key_of model_group_columns d r = k)
    /\ (forall k n, In (k, n) out ->
          0 < n /\ n = len (get_group model_group_columns d k))
    /\ list_sum (map snd out) = len d.
Proof.
  intros Hdf Hcols Hvar.
  exists (map (fun kg => (fst kg, len (snd kg))) (groups_of model_group_columns d)).
  assert (Hkeys : map fst (map (fun kg : GroupKey * DataFrame => (fst kg, len (snd kg)))
                             (groups_of model_group_columns d))
                  = group_keys model_group_columns d).
  { rewrite map_map. simpl. apply groups_of_keys. }
  split; [|split; [|split; [|split]]].
  - unfold model_groups, bind, get_df, lift, groupby. rewrite Hdf, Hcols, Hvar.
    reflexivity.
  - rewrite Hkeys. apply group_keys_nodup.
  - intros k. rewrite Hkeys. apply in_group_keys.
  - intros k n Hin. apply in_map_iff in Hin. destruct Hin as ([k' g] & Heq & Hin).
    simpl in Heq. injection Heq as -> <-.
    assert (Hk : In k (group_keys model_group_columns d))
      by (rewrite <- groups_of_keys; change k with (fst (k, g)); now apply in_map).
    apply in_groups_of in Hin. subst g. split; [|reflexivity].
    apply in_group_keys in Hk. destruct Hk as (r & Hr & Hkey).
    assert (Hg : In r (rows (get_group model_group_columns d k)))
      by (apply in_get_group; tauto).
    unfold len. destruct (rows (get_group model_group_columns d k));
      [contradiction | simpl; lia].
  - unfold groups_of. rewrite !map_map. simpl. unfold len.
    apply (group_sizes_add_up (key_of model_group_columns d)).
    + apply group_keys_nodup.
    + intros r Hr. apply in_group_keys. now exists r.
Qed.

End ViewsProperties.

(** ** The completeness rule of the example script *)

(** X11. The rule of [find_ilamb_models.py]: on a group with the column
    [variable_id], [complete] holds exactly when the four required variables
    all occur and at least one of [nbp] and [netAtmosLandCO2Flux] does;
    without the column it raises [AttributeError]. *)
Theorem ilamb_complete_spec (d : DataFrame) :
  (has_column "variable_id" d = true ->
   exists b,
     Ilamb.complete d = Ok b
     /\ (b = true <->
         (forall v, In v ["cSoil"; "cVeg"; "gpp"; "lai"] ->
                    In v (column_values "variable_id" d))
         /\ (In "nbp" (column_values "variable_id" d)
             \/ In "netAtmosLandCO2Flux" (column_values "variable_id" d))))
  /\ (has_column "variable_id" d = false ->
      Ilamb.complete d = Raise (AttributeError "variable_id")).
Proof.
  unfold Ilamb.complete, getattr_column. split; intros Hcol; rewrite Hcol;
    [|reflexivity].
  set (vars := column_values "variable_id" d).
  assert (Hreq : (forall v, In v Ilamb.required -> In v vars) <->
                 filter (fun v => negb (name_in (unique_values vars) v)) Ilamb.required = []).
  { split.
    - intros Hall. destruct (filter _ Ilamb.required) as [|v l] eqn:E; [reflexivity|].
      assert (Hv : In v (filter (fun v => negb (name_in (unique_values vars) v))
                                Ilamb.required)) by (rewrite E; now left).
      apply filter_In in Hv. destruct Hv as [Hv Hneg].
      apply negb_true_iff in Hneg. apply not_true_iff_false in Hneg.
      exfalso. apply Hneg. apply name_in_spec, unique_values_in. now apply Hall.
    - intros Hnil v Hv.
      destruct (name_in (unique_values vars) v) eqn:E.
      + now apply unique_values_in, name_in_spec.
      + assert (Hin : In v (filter (fun v => negb (name_in (unique_values vars) v))
                                   Ilamb.required))
          by (apply filter_In; split; [assumption | now rewrite E]).
        rewrite Hnil in Hin. contradiction. }
  assert (Heither : existsb (fun v => name_in Ilamb.either v) vars = true <->
                    In "nbp" vars \/ In "netAtmosLandCO2Flux" vars).
  { rewrite existsb_exists. split.
    - intros (v & Hv & Hin). apply name_in_spec in Hin. simpl in Hin.
      destruct Hin as [<- | [<- | []]]; tauto.
    - intros [H | H]; eexists; (split; [exact H | reflexivity]). }
  change ["cSoil"; "cVeg"; "gpp"; "lai"] with Ilamb.required.
  destruct (filter _ Ilamb.required) as [|v l] eqn:E.
  - destruct (existsb _ vars) eqn:Ex; eexists; (split; [reflexivity|]).
    + split; [intros _|reflexivity]. split; [now apply Hreq | now apply Heither].
    + split; [discriminate|]. intros [_ H]. apply Heither in H. discriminate.
  - eexists. split; [reflexivity|]. split; [discriminate|].
    intros [H _]. apply Hreq in H. discriminate.
Qed.

(** ** search, continued *)

Section SearchContinued.
Context {World Response Dataset DataTree : Type}.
Variable env : Env World Response Dataset DataTree.
#[local] Abbreviation State := (State World Response Dataset).

Lemma same_self_refl (st : State) : same_self st st.
Proof. reflexivity. Qed.

Lemma same_self_trans (a b c : State) : same_self a b -> same_self b c -> same_self a c.
Proof. unfold same_self. congruence. Qed.

Lemma extern_same_self {A : Type} (c : Call Response Dataset)
    (f : World -> World * Result A) :
  preserves (St := State) same_self (extern c f).
Proof. intros st. unfold extern. destruct (f (world st)). reflexivity. Qed.

Lemma search_loop_same_self (idxs : list (SearchIndex World)) (kwargs : Facets)
    (df_var : option DataFrame) (dfs : list DataFrame) :
  preserves (St := State) same_self (search_loop idxs kwargs df_var dfs).
Proof.
  revert df_var dfs. induction idxs as [|index rest IH]; intros df_var dfs;
    cbn [search_loop].
  - apply preserves_ret, same_self_refl.
  - apply (preserves_bind same_self same_self_trans).
    + apply (preserves_try_except same_self same_self_trans).
      * apply (preserves_bind same_self same_self_trans);
          [apply extern_same_self | intros d; apply preserves_ret, same_self_refl].
      * apply preserves_ret, same_self_refl.
    + intros df_var'. apply (preserves_bind same_self same_self_trans).
      * destruct df_var'; [apply preserves_ret | apply preserves_raise];
          apply same_self_refl.
      * intros d. apply IH.
Qed.

Lemma search_run (kwargs : Facets) (st : State) :
  search env kwargs st
  = match search_loop (indices (self st)) kwargs None [] st with
    | (st1, Ok tables) =>
        match combine_results env tables with
        | Ok found => (with_df st1 found, Ok tt)
        | Raise e => (st1, Raise e)
        end
    | (st1, Raise e) => (st1, Raise e)
    end.
Proof.
  unfold search, bind, get_self, lift.
  destruct (search_loop (indices (self st)) kwargs None [] st) as [st1 [tables|e]];
    [|reflexivity].
  now destruct (combine_results env tables).
Qed.

Lemma search_loop_length (kwargs : Facets) (idxs : list (SearchIndex World))
    (df_var : option DataFrame) (dfs : list DataFrame) (st st' : State)
    (tables : list DataFrame) :
  search_loop idxs kwargs df_var dfs st = (st', Ok tables) ->
  List.length tables = List.length dfs + List.length idxs.
Proof.
  revert df_var dfs st. induction idxs as [|index rest IH]; intros df_var dfs st Hrun.
  - injection Hrun as _ <-. simpl. lia.
  - cbn [search_loop] in Hrun.
    apply bind_ok_inv in Hrun. destruct Hrun as (v & s1 & _ & Hrun).
    apply bind_ok_inv in Hrun. destruct Hrun as (d & s2 & _ & Hrun).
    apply IH in Hrun. rewrite length_app in Hrun. simpl in *. lia.
Qed.

(** X12. A call of [search] that raises leaves the catalog as it was, the
    working set of an earlier search included; a call that returns has
    replaced the working set by the table that [combine_results] returned for
    one table per index, and changed nothing else of the catalog. *)
Theorem search_replaces_the_working_set_or_nothing (kwargs : Facets) (st : State) :
  match snd (search env kwargs st) with
  | Raise _ => self (fst (search env kwargs st)) = self st
  | Ok _ =>
      exists tables found,
        combine_results env tables = Ok found
        /\ List.length tables = List.length (indices (self st))
        /\ self (fst (search env kwargs st)) = self (with_df st found)
  end.
Proof.
  rewrite search_run.
  pose proof (search_loop_same_self (indices (self st)) kwargs None [] st) as Hself.
  destruct (search_loop (indices (self st)) kwargs None [] st) as [st1 [tables|e]] eqn:Hloop;
    simpl in Hself; [|exact Hself].
  destruct (combine_results env tables) as [found|e] eqn:Hcombine;
    simpl; [|exact Hself].
  exists tables, found. split; [assumption|]. split.
  - apply search_loop_length in Hloop. simpl in Hloop. exact Hloop.
  - unfold same_self in Hself. unfold with_df. simpl. now rewrite Hself.
Qed.

Lemma search_loop_carry (kwargs : Facets) (idxs : list (SearchIndex World))
    (outs : list (Result DataFrame)) :
  outcomes kwargs idxs outs -> Forall caught outs ->
  forall (prev : DataFrame) (dfs : list DataFrame) (st : State),
  exists st',
    search_loop idxs kwargs (Some prev) dfs st
    = (st', Ok (dfs ++ carry_forward prev outs)%list)
    /\ self st' = self st.
Proof.
  induction 1 as [|index o idxs outs Hout _ IH]; intros Hcaught prev dfs st.
  - exists st. simpl. rewrite app_nil_r. split; reflexivity.
  - inversion Hcaught as [|? ? Ho Hrest]; subst.
    cbn [search_loop]. destruct (Hout (world st)) as [w' Hw].
    unfold bind at 1, try_except, bind at 1.
    rewrite (extern_run _ _ st w' _ Hw).
    destruct o as [d|e].
    + unfold ret at 1. unfold bind at 1, ret at 1.
      destruct (IH Hrest d (dfs ++ [d])%list (logged st w' [CallIndexSearch kwargs]))
        as (st' & Hrun & Hself).
      exists st'. rewrite Hrun. simpl. rewrite <- app_assoc. split; [reflexivity|exact Hself].
    + simpl in Ho. rewrite Ho. unfold ret at 1. unfold bind at 1, ret at 1.
      destruct (IH Hrest prev (dfs ++ [prev])%list (logged st w' [CallIndexSearch kwargs]))
        as (st' & Hrun & Hself).
      exists st'. rewrite Hrun. simpl. rewrite <- app_assoc. split; [reflexivity|exact Hself].
Qed.

(** X13. When the first index answers and each later index answers or raises
    [ValueError] or [SearchAPIError], [search] hands [combine_results] one
    table for each index, in the order of the indices: the table of the index
    when it answered, and otherwise the table of the last index before it
    that answered; when [combine_results] returns, its table is the new
    working set. *)
Theorem search_carries_the_last_table_forward
    (kwargs : Facets) (st : State) (first : SearchIndex World)
    (others : list (SearchIndex World)) (d0 : DataFrame)
    (outs : list (Result DataFrame)) (found : DataFrame) :
  indices (self st) = first :: others ->
  (forall w, exists w', first kwargs w = (w', Ok d0)) ->
  outcomes kwargs others outs ->
  Forall caught outs ->
  combine_results env (d0 :: carry_forward d0 outs) = Ok found ->
  snd (search_loop (indices (self st)) kwargs None [] st)
  = Ok (d0 :: carry_forward d0 outs)
  /\ exists st',
       search env kwargs st = (st', Ok tt) /\ df (self st') = Some found.
Proof.
  intros Hidx Hfirst Houts Hcaught Hcombine.
  assert (Hloop : exists st1,
             search_loop (indices (self st)) kwargs None [] st
             = (st1, Ok (d0 :: carry_forward d0 outs))).
  { rewrite Hidx. cbn [search_loop].
    destruct (Hfirst (world st)) as [w' Hw].
    unfold bind at 1, try_except, bind at 1.
    rewrite (extern_run _ _ st w' _ Hw). unfold ret at 1. unfold bind at 1, ret at 1.
    destruct (search_loop_carry kwargs others outs Houts Hcaught d0 [d0]
                (logged st w' [CallIndexSearch kwargs])) as (st1 & Hrun & _).
    exists st1. exact Hrun. }
  destruct Hloop as (st1 & Hloop). split; [now rewrite Hloop|].
  rewrite search_run, Hloop, Hcombine.
  exists (with_df st1 found). split; reflexivity.
Qed.

End SearchContinued.

(** ** to_dataset_dict, continued *)

Section MaterializeContinued.
Context {World Response Dataset DataTree : Type}.
Variable env : Env World Response Dataset DataTree.
#[local] Abbreviation State := (State World Response Dataset).

Section Within.
Variables (cache : Path) (P : Call Response Dataset -> Prop).

Lemma calls_within_refl (st : State) : calls_within cache P st st.
Proof.
  intros _. split; [reflexivity|]. exists []. rewrite app_nil_r. split; constructor.
Qed.

Lemma calls_within_trans (a b c : State) :
  calls_within cache P a b -> calls_within cache P b c -> calls_within cache P a c.
Proof.
  intros Hab Hbc Hcache. destruct (Hab Hcache) as (Hself & cs & Hcalls & Hcs).
  assert (Hcache' : local_cache (self b) = cache) by now rewrite Hself.
  destruct (Hbc Hcache') as (Hself' & cs' & Hcalls' & Hcs').
  split; [congruence|]. exists (cs ++ cs')%list. split.
  - rewrite Hcalls', Hcalls. now rewrite app_assoc.
  - apply Forall_app. tauto.
Qed.

Lemma extern_within {A : Type} (c : Call Response Dataset)
    (f : World -> World * Result A) :
  P c -> preserves (St := State) (calls_within cache P) (extern c f).
Proof.
  intros Hc st _. unfold extern. destruct (f (world st)) as [w r]. simpl.
  split; [reflexivity|]. exists [c]. split; [reflexivity|]. now constructor.
Qed.

Lemma silent_within {A : Type} (c : M State A) :
  (forall st, self (fst (c st)) = self st /\ calls (fst (c st)) = calls st) ->
  preserves (St := State) (calls_within cache P) c.
Proof.
  intros H st _. destruct (H st) as [Hself Hcalls]. split; [assumption|].
  exists []. rewrite app_nil_r. split; [assumption | constructor].
Qed.
End Within.

Lemma resolve_files_within (response : Response) (data_root cache : Path) :
  preserves (St := State) (calls_within cache (uses_roots data_root cache))
    (resolve_files env response data_root).
Proof.
  unfold resolve_files.
  apply (preserves_bind _ (calls_within_trans cache _)).
  - apply (preserves_try_except _ (calls_within_trans cache _)).
    + now apply extern_within.
    + apply preserves_ret, calls_within_refl.
  - intros [|file files]; [|apply preserves_ret, calls_within_refl].
    intros st Hcache. unfold bind, get_self.
    apply (extern_within cache (uses_roots data_root cache)); [|exact Hcache].
    simpl. exact Hcache.
Qed.

Lemma open_files_within (key : string) (file_list : list Path) (ds : Dict Dataset)
    (data_root cache : Path) :
  preserves (St := State) (calls_within cache (uses_roots data_root cache))
    (open_files env key file_list ds).
Proof.
  unfold open_files.
  destruct (Nat.eqb (List.length file_list) 1);
    [|destruct (Nat.ltb 1 (List.length file_list))].
  - apply (preserves_bind _ (calls_within_trans cache _));
      [now apply extern_within | intros v; apply preserves_ret, calls_within_refl].
  - apply (preserves_bind _ (calls_within_trans cache _));
      [now apply extern_within | intros v; apply preserves_ret, calls_within_refl].
  - apply preserves_ret, calls_within_refl.
Qed.

Lemma materialize_row_within (key_format : list string) (separator : string)
    (data_root cache : Path) (d : DataFrame) (row : FrameRow) (ds : Dict Dataset) :
  preserves (St := State) (calls_within cache (uses_roots data_root cache))
    (materialize_row env key_format separator data_root d row ds).
Proof.
  unfold materialize_row.
  apply (preserves_bind _ (calls_within_trans cache _)).
  { apply silent_within. intros st. split; reflexivity. }
  intros c. apply (preserves_bind _ (calls_within_trans cache _)).
  { destruct (index_id c); [apply preserves_ret | apply preserves_raise];
      apply calls_within_refl. }
  intros idx. apply (preserves_bind _ (calls_within_trans cache _));
    [apply preserves_lift, calls_within_refl | intros subject].
  apply (preserves_bind _ (calls_within_trans cache _));
    [now apply extern_within | intros response].
  apply (preserves_bind _ (calls_within_trans cache _));
    [apply resolve_files_within | intros file_list].
  apply open_files_within.
Qed.

Lemma materialize_rows_within (key_format : list string) (separator : string)
    (data_root cache : Path) (d : DataFrame) (todo : list FrameRow) (ds : Dict Dataset) :
  preserves (St := State) (calls_within cache (uses_roots data_root cache))
    (materialize_rows env key_format separator data_root d todo ds).
Proof.
  revert ds. induction todo as [|row rest IH]; intros ds; cbn [materialize_rows].
  - apply preserves_ret, calls_within_refl.
  - apply (preserves_bind _ (calls_within_trans cache _));
      [apply materialize_row_within | intros ds'; apply IH].
Qed.

Lemma to_dataset_dict_within (minimal_keys : bool) (ignore_facets : IgnoreFacets)
    (separator : string) (st : State) :
  calls_within (local_cache (self st))
    (uses_roots (data_root_of (self st)) (local_cache (self st)))
    st (fst (to_dataset_dict env minimal_keys ignore_facets separator st)).
Proof.
  unfold to_dataset_dict, bind at 1, get_self.
  destruct (df (self st)) as [d|]; [|apply calls_within_refl].
  destruct (Nat.eqb (len d) 0); [apply calls_within_refl|].
  fold (data_root_of (self st)).
  generalize (data_root_of (self st)) (local_cache (self st)). intros data_root cache.
  revert st.
  apply (preserves_bind _ (calls_within_trans cache _)).
  { destruct ignore_facets;
      [apply silent_within | apply silent_within | apply preserves_ret, calls_within_refl];
      intros st; split; reflexivity. }
  intros ref. apply (preserves_bind _ (calls_within_trans cache _)).
  { apply silent_within. intros st. split; reflexivity. }
  intros _. apply (preserves_bind _ (calls_within_trans cache _)).
  { apply silent_within. intros st. split; reflexivity. }
  intros ignored. apply (preserves_bind _ (calls_within_trans cache _));
    [apply preserves_lift, calls_within_refl | intros key_format].
  apply materialize_rows_within.
Qed.

(** X14. Materialization reads the catalog and never changes it: after
    [to_dataset_dict] and after [to_datatree], however they end, the working
    set, the indices, the data root and the cache are those of before. *)
Theorem materialization_leaves_the_catalog (minimal_keys : bool)
    (ignore_facets : IgnoreFacets) (separator : string) (st : State) :
  self (fst (to_dataset_dict env minimal_keys ignore_facets separator st)) = self st
  /\ self (fst (to_datatree env minimal_keys ignore_facets st)) = self st.
Proof.
  split.
  - apply (to_dataset_dict_within minimal_keys ignore_facets separator st eq_refl).
  - unfold to_datatree, bind.
    pose proof (to_dataset_dict_within minimal_keys ignore_facets "/" st eq_refl) as [H _].
    destruct (to_dataset_dict env minimal_keys ignore_facets "/" st) as [st' [ds|e]];
      simpl in *; [|exact H].
    rewrite <- H. apply (extern_same_self (CallFromDict ds) (from_dict env ds) st').
Qed.

(** X15. [to_dataset_dict] looks for local files under the data root set by
    [set_esgf_data_root], and under the cache when none was set, and it
    downloads into the cache only: after [set_esgf_data_root] on an existing
    directory, every local lookup of the following [to_dataset_dict] is under
    that directory and every download goes to the cache. A directory that
    does not exist is refused with [AssertionError] and the catalog stays as
    it was. *)
Theorem data_root_is_searched_and_cache_is_written
    (is_dir : Path -> World -> bool) (root : Path) (minimal_keys : bool)
    (ignore_facets : IgnoreFacets) (separator : string) (st : State) :
  (is_dir root (world st) = true ->
   exists cs,
     calls (fst ((set_esgf_data_root is_dir root ;;
                  to_dataset_dict env minimal_keys ignore_facets separator) st))
     = (calls st ++ cs)%list
     /\ Forall (uses_roots root (local_cache (self st))) cs)
  /\ (esgf_data_root (self st) = None ->
      exists cs,
        calls (fst (to_dataset_dict env minimal_keys ignore_facets separator st))
        = (calls st ++ cs)%list
        /\ Forall (uses_roots (local_cache (self st)) (local_cache (self st))) cs)
  /\ (is_dir root (world st) = false ->
      set_esgf_data_root is_dir root st = (st, Raise (OtherError "AssertionError"))).
Proof.
  split; [|split].
  - intros Hdir. unfold bind, set_esgf_data_root. rewrite Hdir.
    match goal with
    | |- context [to_dataset_dict env minimal_keys ignore_facets separator ?s] =>
        destruct (to_dataset_dict_within minimal_keys ignore_facets separator s eq_refl)
          as (_ & cs & Hcalls & Hcs)
    end.
    exists cs. split; [exact Hcalls | exact Hcs].
  - intros Hnone.
    destruct (to_dataset_dict_within minimal_keys ignore_facets separator st eq_refl)
      as (_ & cs & Hcalls & Hcs).
    exists cs. split; [exact Hcalls|].
    unfold data_root_of in Hcs. now rewrite Hnone in Hcs.
  - intros Hdir. unfold set_esgf_data_root. now rewrite Hdir.
Qed.

(** X16. On a non-empty working set, when a name that the caller asked to
    ignore is not a column, or when one of [version], [data_node] and
    [globus_subject] is not, [to_dataset_dict] raises [KeyError] before any
    collaborator is called and leaves the catalog as it was. *)
Theorem ignoring_a_missing_column_raises_key_error
    (minimal_keys : bool) (ignore_facets : IgnoreFacets) (separator : string)
    (st : State) (d : DataFrame) (missing : string) :
  df (self st) = Some d -> rows d <> [] ->
  In missing (given_facets st ignore_facets ++ always_ignored) ->
  ~ In missing (columns d) ->
  exists key,
    snd (to_dataset_dict env minimal_keys ignore_facets separator st) = Raise (KeyError key)
    /\ calls (fst (to_dataset_dict env minimal_keys ignore_facets separator st)) = calls st
    /\ self (fst (to_dataset_dict env minimal_keys ignore_facets separator st)) = self st.
Proof.
  intros Hdf Hrows Hin Hnot.
  assert (Hdrop : forall names, In missing names ->
                    forallb (name_in (columns d)) names = false).
  { intros names Hnames. apply not_true_iff_false. intros Hall.
    rewrite forallb_forall in Hall. apply Hnot, name_in_spec. now apply Hall. }
  assert (Hrun : exists st2,
             to_dataset_dict env minimal_keys ignore_facets separator st
             = (st2, Raise (KeyError "not found in axis"))
             /\ calls st2 = calls st /\ self st2 = self st).
  { unfold to_dataset_dict, bind at 1, get_self. rewrite Hdf.
    replace (Nat.eqb (len d) 0) with false
      by (unfold len; destruct (rows d); [contradiction | reflexivity]).
    destruct ignore_facets as [|s|ref];
      unfold bind, alloc, ret, extend, deref, lift, output_key_format, drop_columns;
      cbn [heap]; rewrite ?Nat.eqb_refl;
      match goal with
      | |- context [forallb (name_in (columns d)) ?l] => rewrite (Hdrop l Hin)
      end;
      eexists; (split; [reflexivity | split; reflexivity]). }
  destruct Hrun as (st2 & Hrun & Hcalls & Hself).
  exists "not found in axis". rewrite Hrun. simpl. tauto.
Qed.

Lemma all_equal_first_one_row (col : string) (d : DataFrame) (r : FrameRow) :
  rows d = [r] -> all_equal_first col d = true.
Proof.
  intros H. unfold all_equal_first, column_values. rewrite H. simpl.
  now rewrite String.eqb_refl.
Qed.

Lemma open_files_ok_inv (key : string) (file_list : list Path) (ds ds' : Dict Dataset)
    (st st' : State) :
  open_files env key file_list ds st = (st', Ok ds') ->
  exists v, ds' = dict_set key v ds.
Proof.
  unfold open_files.
  destruct (Nat.eqb (List.length file_list) 1);
    [|destruct (Nat.ltb 1 (List.length file_list))]; intros H.
  - apply bind_ok_inv in H. destruct H as (v & s1 & _ & H). injection H as _ <-.
    now eexists.
  - apply bind_ok_inv in H. destruct H as (v & s1 & _ & H). injection H as _ <-.
    now eexists.
  - injection H as _ <-. now eexists.
Qed.

Lemma same_listings_refl (st : State) : same_listings st st.
Proof. reflexivity. Qed.

Lemma same_listings_trans (a b c : State) :
  same_listings a b -> same_listings b c -> same_listings a c.
Proof. unfold same_listings. congruence. Qed.

Lemma listings_logged (st : State) (w : World) (cs : list (Call Response Dataset)) :
  listings (logged st w cs) = listings st + List.length (filter is_listing cs).
Proof. unfold listings, logged. simpl. now rewrite filter_app, length_app. Qed.

Lemma extern_same_listings {A : Type} (c : Call Response Dataset)
    (f : World -> World * Result A) :
  is_listing c = false -> preserves (St := State) same_listings (extern c f).
Proof.
  intros Hc st. destruct (f (world st)) as [w r] eqn:E.
  rewrite (extern_run c f st w r E). unfold same_listings. simpl.
  rewrite listings_logged. simpl. rewrite Hc. simpl. lia.
Qed.

Lemma resolve_files_same_listings (response : Response) (data_root : Path) :
  preserves (St := State) same_listings (resolve_files env response data_root).
Proof.
  unfold resolve_files.
  apply (preserves_bind same_listings same_listings_trans).
  - apply (preserves_try_except same_listings same_listings_trans).
    + now apply extern_same_listings.
    + apply preserves_ret, same_listings_refl.
  - intros [|file files]; [|apply preserves_ret, same_listings_refl].
    apply (preserves_bind same_listings same_listings_trans).
    + intros st. reflexivity.
    + intros c. now apply extern_same_listings.
Qed.

Lemma open_files_same_listings (key : string) (file_list : list Path) (ds : Dict Dataset) :
  preserves (St := State) same_listings (open_files env key file_list ds).
Proof.
  unfold open_files.
  destruct (Nat.eqb (List.length file_list) 1);
    [|destruct (Nat.ltb 1 (List.length file_list))].
  - apply (preserves_bind same_listings same_listings_trans);
      [now apply extern_same_listings | intros v; apply preserves_ret, same_listings_refl].
  - apply (preserves_bind same_listings same_listings_trans);
      [now apply extern_same_listings | intros v; apply preserves_ret, same_listings_refl].
  - apply preserves_ret, same_listings_refl.
Qed.

(** One record that went through the loop body: one listing, and one entry
    set under the key of the record. *)
Lemma materialize_row_ok_inv (key_format : list string) (separator : string)
    (data_root : Path) (d : DataFrame) (row : FrameRow) (ds ds' : Dict Dataset)
    (st st' : State) :
  materialize_row env key_format separator data_root d row ds st = (st', Ok ds') ->
  (exists v, ds' = dict_set (row_key key_format separator d row) v ds)
  /\ listings st' = S (listings st).
Proof.
  unfold materialize_row. intros H.
  apply bind_ok_inv in H. destruct H as (c & s0 & Hc & H).
  injection Hc as <- <-.
  apply bind_ok_inv in H. destruct H as (idx & s1 & Hidx & H).
  assert (s1 = st) by (destruct (index_id (self st)); now inversion Hidx). subst s1.
  apply bind_ok_inv in H. destruct H as (subject & s2 & Hsub & H).
  assert (s2 = st) by (unfold lift in Hsub; now inversion Hsub). subst s2.
  apply bind_ok_inv in H. destruct H as (response & s3 & Hpost & H).
  apply bind_ok_inv in H. destruct H as (file_list & s4 & Hres & H).
  split; [eapply open_files_ok_inv; eassumption|].
  pose proof (open_files_same_listings (row_key key_format separator d row)
                file_list ds s4) as H4.
  rewrite H in H4. unfold same_listings in H4. simpl in H4.
  pose proof (resolve_files_same_listings response data_root s3) as H3.
  rewrite Hres in H3. unfold same_listings in H3. simpl in H3.
  unfold extern in Hpost.
  destruct (post_search env idx subject (world st)) as [w r].
  injection Hpost as <- _.
  rewrite H4, H3. unfold listings. simpl. rewrite filter_app, length_app. simpl. lia.
Qed.

Lemma dict_get_set_other (k k' : string) (v : Value Dataset) (ds : Dict Dataset) :
  dict_get k ds <> None -> dict_get k (dict_set k' v ds) <> None.
Proof.
  induction ds as [|[k0 v0] ds IH]; simpl; [congruence|].
  destruct (String.eqb k' k0) eqn:E'; simpl.
  - apply String.eqb_eq in E'. subst k0.
    destruct (String.eqb k k'); [discriminate | trivial].
  - destruct (String.eqb k k0); [discriminate | exact IH].
Qed.

Lemma dict_set_length (k : string) (v : Value Dataset) (ds : Dict Dataset) :
  List.length (dict_set k v ds) <= S (List.length ds).
Proof.
  induction ds as [|[k0 v0] ds IH]; simpl; [lia|].
  destruct (String.eqb k k0); simpl; lia.
Qed.

Lemma materialize_rows_ok_inv (key_format : list string) (separator : string)
    (data_root : Path) (d : DataFrame) (todo : list FrameRow) (ds ds' : Dict Dataset)
    (st st' : State) :
  materialize_rows env key_format separator data_root d todo ds st = (st', Ok ds') ->
  (forall k, dict_get k ds <> None -> dict_get k ds' <> None)
  /\ (forall row, In row todo ->
        dict_get (row_key key_format separator d row) ds' <> None)
  /\ List.length ds' <= List.length ds + List.length todo
  /\ listings st' = listings st + List.length todo.
Proof.
  revert ds st. induction todo as [|row rest IH]; intros ds st H;
    cbn [materialize_rows] in H.
  - injection H as <- <-. simpl. repeat split; auto; try lia; try (intros row []).
  - apply bind_ok_inv in H. destruct H as (ds1 & s1 & Hrow & H).
    apply materialize_row_ok_inv in Hrow. destruct Hrow as ((v & ->) & Hl1).
    apply IH in H. destruct H as (Hkeep & Hrest & Hlen & Hl).
    repeat split.
    + intros k Hk. now apply Hkeep, dict_get_set_other.
    + intros r [<- | Hr]; [|now apply Hrest].
      apply Hkeep. rewrite dict_get_set. discriminate.
    + pose proof (dict_set_length (row_key key_format separator d row) v ds).
      simpl. lia.
    + simpl. lia.
Qed.

Lemma to_dataset_dict_ok_inv (minimal_keys : bool) (ignore_facets : IgnoreFacets)
    (separator : string) (st st' : State) (ds : Dict Dataset) :
  to_dataset_dict env minimal_keys ignore_facets separator st = (st', Ok ds) ->
  exists d key_format st1,
    df (self st) = Some d
    /\ output_key_format minimal_keys
         (given_facets st ignore_facets ++ always_ignored)%list d = Ok key_format
    /\ (self st1 = self st /\ world st1 = world st /\ calls st1 = calls st)
    /\ materialize_rows env key_format separator (data_root_of (self st)) d (rows d) [] st1
       = (st', Ok ds).
Proof.
  unfold to_dataset_dict, bind at 1, get_self.
  destruct (df (self st)) as [d|]; [|discriminate].
  destruct (Nat.eqb (len d) 0); [discriminate|].
  fold (data_root_of (self st)). intros H.
  apply bind_ok_inv in H. destruct H as (ref & s1 & Href & H).
  apply bind_ok_inv in H. destruct H as ([] & s2 & Hext & H).
  apply bind_ok_inv in H. destruct H as (ignored & s3 & Hderef & H).
  apply bind_ok_inv in H. destruct H as (key_format & s4 & Hfmt & H).
  unfold extend in Hext. injection Hext as <-.
  unfold deref in Hderef. injection Hderef as <- <-.
  unfold lift in Hfmt.
  assert (s4 = {| self := self s1; world := world s1;
                  heap := fun a => if Nat.eqb a ref
                                   then (heap s1 ref ++ always_ignored)%list
                                   else heap s1 a;
                  next_ref := next_ref s1; calls := calls s1 |})
    by now inversion Hfmt.
  subst s4.
  assert (Hout : output_key_format minimal_keys
                   (if Nat.eqb ref ref then (heap s1 ref ++ always_ignored)%list
                    else heap s1 ref) d = Ok key_format) by now inversion Hfmt.
  rewrite Nat.eqb_refl in Hout.
  exists d, key_format. eexists. split; [reflexivity|]. split; [|split; [|exact H]].
  - destruct ignore_facets as [|s|r]; simpl in Href |- *.
    + unfold alloc in Href. injection Href as <- <-. simpl in Hout.
      now rewrite Nat.eqb_refl in Hout.
    + unfold alloc in Href. injection Href as <- <-. simpl in Hout.
      now rewrite Nat.eqb_refl in Hout.
    + unfold ret in Href. injection Href as <- <-. exact Hout.
  - simpl. destruct ignore_facets; simpl in Href.
    + unfold alloc in Href. injection Href as <- _. repeat split.
    + unfold alloc in Href. injection Href as <- _. repeat split.
    + unfold ret in Href. injection Href as <- _. repeat split.
Qed.

Lemma dict_set_keys (k k' : string) (v : Value Dataset) (ds : Dict Dataset) :
  In k (map fst (dict_set k' v ds)) <-> k = k' \/ In k (map fst ds).
Proof.
  induction ds as [|[k0 v0] ds IH]; simpl.
  - intuition.
  - destruct (String.eqb k' k0) eqn:E; simpl.
    + apply String.eqb_eq in E. subst k0. intuition.
    + rewrite IH. intuition.
Qed.

Lemma dict_set_nodup (k : string) (v : Value Dataset) (ds : Dict Dataset) :
  NoDup (map fst ds) -> NoDup (map fst (dict_set k v ds)).
Proof.
  induction ds as [|[k0 v0] ds IH]; simpl; intros Hnd.
  - constructor; [intros [] | constructor].
  - inversion Hnd as [|? ? Hnotin Hnd']; subst.
    destruct (String.eqb k k0) eqn:E; simpl.
    + apply String.eqb_eq in E. subst k0. now constructor.
    + constructor; [|now apply IH].
      rewrite dict_set_keys. intros [-> | H]; [|contradiction].
      now rewrite String.eqb_refl in E.
Qed.

Lemma materialize_rows_keys (key_format : list string) (separator : string)
    (data_root : Path) (d : DataFrame) (todo : list FrameRow) (ds ds' : Dict Dataset)
    (st st' : State) :
  materialize_rows env key_format separator data_root d todo ds st = (st', Ok ds') ->
  (NoDup (map fst ds) -> NoDup (map fst ds'))
  /\ forall k, In k (map fst ds') <->
               In k (map fst ds)
               \/ exists row, In row todo /\ row_key key_format separator d row = k.
Proof.
  revert ds st. induction todo as [|row rest IH]; intros ds st H;
    cbn [materialize_rows] in H.
  - injection H as <- <-. split; [trivial|]. intros k. split; [tauto|].
    intros [Hk | (row & [] & _)]. exact Hk.
  - apply bind_ok_inv in H. destruct H as (ds1 & s1 & Hrow & H).
    apply materialize_row_ok_inv in Hrow. destruct Hrow as ((v & ->) & _).
    apply IH in H. destruct H as (Hnd & Hkeys). split.
    + intros Hds. now apply Hnd, dict_set_nodup.
    + intros k. rewrite Hkeys, dict_set_keys. split.
      * intros [[-> | Hk] | (r & Hr & Hk)]; [right; exists row | tauto | right; exists r];
          simpl; tauto.
      * intros [Hk | (r & [<- | Hr] & Hk)]; [tauto | left; left; congruence |].
        right. exists r. tauto.
Qed.

Lemma bind_ok_intro {St A B : Type} (c : M St A) (k : A -> M St B)
    (st st1 : St) (a : A) (r : St * Result B) :
  c st = (st1, Ok a) -> k a st1 = r -> bind c k st = r.
Proof. intros Hc Hk. unfold bind. now rewrite Hc. Qed.

Lemma dict_get_set_neq (k k' : string) (v : Value Dataset) (ds : Dict Dataset) :
  k <> k' -> dict_get k (dict_set k' v ds) = dict_get k ds.
Proof.
  intros Hneq. apply String.eqb_neq in Hneq.
  induction ds as [|[k0 v0] ds IH]; simpl.
  - now rewrite Hneq.
  - destruct (String.eqb k' k0) eqn:E; simpl.
    + apply String.eqb_eq in E. subst k0. now rewrite Hneq.
    + destruct (String.eqb k k0); [reflexivity | exact IH].
Qed.

(** What the end of the loop body stores does not depend on the dictionary
    it is stored in. *)
Lemma open_files_any_dict (key : string) (file_list : list Path) (ds ds' : Dict Dataset)
    (st st' : State) :
  open_files env key file_list ds st = (st', Ok ds') ->
  exists v,
    ds' = dict_set key v ds
    /\ forall ds2, open_files env key file_list ds2 st = (st', Ok (dict_set key v ds2)).
Proof.
  unfold open_files.
  destruct (Nat.eqb (List.length file_list) 1);
    [|destruct (Nat.ltb 1 (List.length file_list))]; intros H.
  - apply bind_ok_inv in H. destruct H as (x & s1 & Hopen & H). injection H as <- <-.
    exists (VDataset x). split; [reflexivity|]. intros ds2.
    eapply bind_ok_intro; [exact Hopen | reflexivity].
  - apply bind_ok_inv in H. destruct H as (x & s1 & Hopen & H). injection H as <- <-.
    exists (VDataset x). split; [reflexivity|]. intros ds2.
    eapply bind_ok_intro; [exact Hopen | reflexivity].
  - injection H as <- <-. exists (VStr could_not_obtain). split; reflexivity.
Qed.

Lemma materialize_row_any_dict (key_format : list string) (separator : string)
    (data_root : Path) (d : DataFrame) (row : FrameRow) (ds ds' : Dict Dataset)
    (st st' : State) :
  materialize_row env key_format separator data_root d row ds st = (st', Ok ds') ->
  exists v,
    ds' = dict_set (row_key key_format separator d row) v ds
    /\ materialize_row env key_format separator data_root d row [] st
       = (st', Ok [(row_key key_format separator d row, v)]).
Proof.
  unfold materialize_row. intros H.
  apply bind_ok_inv in H. destruct H as (c & s0 & Hc & H).
  apply bind_ok_inv in H. destruct H as (idx & s1 & Hidx & H).
  apply bind_ok_inv in H. destruct H as (subject & s2 & Hsub & H).
  apply bind_ok_inv in H. destruct H as (response & s3 & Hpost & H).
  apply bind_ok_inv in H. destruct H as (file_list & s4 & Hres & H).
  apply open_files_any_dict in H. destruct H as (v & -> & Hany).
  exists v. split; [reflexivity|].
  eapply bind_ok_intro; [exact Hc|]. eapply bind_ok_intro; [exact Hidx|].
  eapply bind_ok_intro; [exact Hsub|]. eapply bind_ok_intro; [exact Hpost|].
  eapply bind_ok_intro; [exact Hres|]. apply (Hany []).
Qed.

Lemma materialize_rows_split (key_format : list string) (separator : string)
    (data_root : Path) (d : DataFrame) (before after : list FrameRow) (row : FrameRow)
    (ds ds' : Dict Dataset) (st st' : State) :
  materialize_rows env key_format separator data_root d (before ++ row :: after) ds st
  = (st', Ok ds') ->
  exists s0 ds0 s1 ds1,
    materialize_rows env key_format separator data_root d before ds st = (s0, Ok ds0)
    /\ materialize_row env key_format separator data_root d row ds0 s0 = (s1, Ok ds1)
    /\ materialize_rows env key_format separator data_root d after ds1 s1 = (st', Ok ds').
Proof.
  revert ds st. induction before as [|r0 before IH]; intros ds st H.
  - cbn [app materialize_rows] in H.
    apply bind_ok_inv in H. destruct H as (ds1 & s1 & Hrow & H).
    exists st, ds, s1, ds1. repeat split; assumption.
  - cbn [app materialize_rows] in H.
    apply bind_ok_inv in H. destruct H as (dsa & sa & Hrow & H).
    apply IH in H. destruct H as (s0 & ds0 & s1 & ds1 & Hbefore & Hthis & Hafter).
    exists s0, ds0, s1, ds1. repeat split; try assumption.
    cbn [materialize_rows]. eapply bind_ok_intro; eassumption.
Qed.

Lemma materialize_rows_keeps_other_keys (key_format : list string) (separator : string)
    (data_root : Path) (d : DataFrame) (todo : list FrameRow) (ds ds' : Dict Dataset)
    (st st' : State) (k : string) :
  materialize_rows env key_format separator data_root d todo ds st = (st', Ok ds') ->
  (forall row, In row todo -> row_key key_format separator d row <> k) ->
  dict_get k ds' = dict_get k ds.
Proof.
  revert ds st. induction todo as [|row rest IH]; intros ds st H Hother;
    cbn [materialize_rows] in H.
  - now injection H as _ <-.
  - apply bind_ok_inv in H. destruct H as (ds1 & s1 & Hrow & H).
    apply materialize_row_ok_inv in Hrow. destruct Hrow as ((v & ->) & _).
    rewrite (IH _ _ H) by (intros r Hr; apply Hother; now right).
    apply dict_get_set_neq. intros Heq. apply (Hother row); [now left | congruence].
Qed.

(** X17. When [to_dataset_dict] returns, the keys of the dictionary are the
    keys of the records of the working set, each key once, so that records
    with the same key share one entry; every record finds an entry under its
    key, and the entry is the one stored for the last record with that key:
    the value that the loop body gives for that record, in the state that the
    records before it left, overwrites what an earlier record stored. One
    file listing was asked for per record. The loop starts in a state that
    differs from the state of the call in the store of list objects only. *)
Theorem returned_dictionary_covers_every_record
    (minimal_keys : bool) (ignore_facets : IgnoreFacets) (separator : string)
    (st st' : State) (ds : Dict Dataset) :
  to_dataset_dict env minimal_keys ignore_facets separator st = (st', Ok ds) ->
  exists d key_format st1,
    df (self st) = Some d
    /\ output_key_format minimal_keys
         (given_facets st ignore_facets ++ always_ignored)%list d = Ok key_format
    /\ (self st1 = self st /\ world st1 = world st /\ calls st1 = calls st)
    /\ NoDup (map fst ds)
    /\ (forall k, In k (map fst ds) <->
                  exists row, In row (rows d) /\ row_key key_format separator d row = k)
    /\ (forall row, In row (rows d) ->
          dict_get (row_key key_format separator d row) ds <> None)
    /\ (forall before row after,
          rows d = (before ++ row :: after)%list ->
          (forall later, In later after ->
             row_key key_format separator d later <> row_key key_format separator d row) ->
          exists s0 ds0 s1 v,
            materialize_rows env key_format separator (data_root_of (self st)) d
                             before [] st1 = (s0, Ok ds0)
            /\ materialize_row env key_format separator (data_root_of (self st)) d
                               row [] s0
               = (s1, Ok [(row_key key_format separator d row, v)])
            /\ dict_get (row_key key_format separator d row) ds = Some v)
    /\ listings st' = listings st + len d.
Proof.
  intros H. apply to_dataset_dict_ok_inv in H.
  destruct H as (d & key_format & st1 & Hdf & Hfmt & Hst1 & Hrows).
  pose proof (materialize_rows_keys _ _ _ _ _ _ _ _ _ Hrows) as (Hnd & Hkeys).
  pose proof (materialize_rows_ok_inv _ _ _ _ _ _ _ _ _ Hrows) as (_ & Hget & _ & Hl).
  exists d, key_format, st1.
  split; [exact Hdf|]. split; [exact Hfmt|]. split; [exact Hst1|].
  split; [apply Hnd; constructor|]. split; [|split; [exact Hget|split]].
  - intros k. rewrite Hkeys. split; [intros [[] | Hk]; exact Hk | intros Hk; now right].
  - intros before row after Hsplit Hlast. rewrite Hsplit in Hrows.
    apply materialize_rows_split in Hrows.
    destruct Hrows as (s0 & ds0 & s1 & ds1 & Hbefore & Hthis & Hafter).
    apply materialize_row_any_dict in Hthis. destruct Hthis as (v & -> & Hempty).
    exists s0, ds0, s1, v. split; [exact Hbefore|]. split; [exact Hempty|].
    rewrite (materialize_rows_keeps_other_keys _ _ _ _ _ _ _ _ _ _ Hafter Hlast).
    apply dict_get_set.
  - rewrite Hl. unfold listings. destruct Hst1 as (_ & _ & Hcalls). now rewrite Hcalls.
Qed.

(** X18. With minimal keys, a working set of one record gives a dictionary
    with one entry, under the empty key: no column tells the record from
    another. *)
Theorem one_record_gets_the_empty_key
    (ignore_facets : IgnoreFacets) (separator : string)
    (st st' : State) (ds : Dict Dataset) (d : DataFrame) (row : FrameRow) :
  to_dataset_dict env true ignore_facets separator st = (st', Ok ds) ->
  df (self st) = Some d -> rows d = [row] ->
  exists v, ds = [("", v)].
Proof.
  intros H Hdf Hrows. apply to_dataset_dict_ok_inv in H.
  destruct H as (d' & key_format & st1 & Hdf' & Hfmt & _ & Hrun).
  rewrite Hdf in Hdf'. injection Hdf' as <-.
  assert (key_format = []).
  { unfold output_key_format in Hfmt.
    destruct (drop_columns _ d) as [kept|e]; [|discriminate].
    injection Hfmt as <-.
    destruct (filter _ (columns kept)) as [|c l] eqn:E; [reflexivity|].
    assert (Hc : In c (filter (fun col => negb (all_equal_first col d)) (columns kept)))
      by (rewrite E; now left).
    apply filter_In in Hc. destruct Hc as [_ Hc].
    now rewrite (all_equal_first_one_row c d row Hrows) in Hc. }
  subst key_format. rewrite Hrows in Hrun. cbn [materialize_rows] in Hrun.
  apply bind_ok_inv in Hrun. destruct Hrun as (ds1 & s1 & Hrow & Hrun).
  injection Hrun as _ <-.
  apply materialize_row_ok_inv in Hrow. destruct Hrow as ((v & ->) & _).
  exists v. reflexivity.
Qed.

Lemma open_files_calls (key : string) (file_list : list Path) (ds : Dict Dataset)
    (st : State) :
  calls (fst (open_files env key file_list ds st)) = (calls st ++ opening file_list)%list.
Proof.
  unfold open_files, opening.
  destruct file_list as [|file [|file' rest]]; simpl.
  - now rewrite app_nil_r.
  - unfold bind, extern. destruct (open_dataset env file (world st)) as [w [v|e]];
      reflexivity.
  - unfold bind, extern.
    destruct (open_mfdataset env (file :: file' :: rest) (world st)) as [w [v|e]];
      reflexivity.
Qed.

(** X19. The collaborator calls made for one record whose file listing was
    obtained. When the local root has files: the listing, the local lookup,
    and the opening of those files, [xr.open_dataset] for one file and
    [xr.open_mfdataset] for several, in the order found. When the local root
    has nothing and the download returns: the listing, the local lookup, the
    download into the cache, and the opening of what was downloaded; nothing
    is opened when no file was obtained. *)
Theorem calls_made_for_a_record
    (key_format : list string) (separator : string) (data_root : Path)
    (d : DataFrame) (row : FrameRow) (ds : Dict Dataset) (st : State)
    (idx : string) (w1 w2 : World) (response : Response)
    (found : Result (list Path)) :
  index_id (self st) = Some idx ->
  has_column "globus_subject" d = true ->
  post_search env idx (cell (columns d) "globus_subject" row) (world st)
  = (w1, Ok response) ->
  response_to_local_filelist env response data_root w1 = (w2, found) ->
  let st' := fst (materialize_row env key_format separator data_root d row ds st) in
  (forall file files, found = Ok (file :: files) ->
     calls st'
     = (calls st
        ++ [CallPostSearch idx (cell (columns d) "globus_subject" row);
            CallLocalFilelist response data_root]
        ++ opening (file :: files))%list)
  /\ (forall w3 downloaded,
        found = Ok [] \/ found = Raise FileNotFoundError ->
        response_to_https_download env response (local_cache (self st)) w2
        = (w3, Ok downloaded) ->
        calls st'
        = (calls st
           ++ [CallPostSearch idx (cell (columns d) "globus_subject" row);
               CallLocalFilelist response data_root;
               CallHttpsDownload response (local_cache (self st))]
           ++ opening downloaded)%list).
Proof.
  intros Hidx Hcol Hpost Hlocal st'. subst st'.
  rewrite (materialize_row_listing env _ _ _ _ _ _ _ _ _ _ Hidx Hcol Hpost).
  split.
  - intros file files ->. unfold bind.
    rewrite (resolve_files_local_hit env response data_root
               (logged st w1 [CallPostSearch idx (cell (columns d) "globus_subject" row)])
               w2 file files Hlocal).
    rewrite open_files_calls. simpl calls. now rewrite <- !app_assoc.
  - intros w3 downloaded Hfound Hdown. unfold bind.
    rewrite (resolve_files_local_miss env response data_root
               (logged st w1 [CallPostSearch idx (cell (columns d) "globus_subject" row)])
               w2 w3 found (Ok downloaded) Hlocal Hfound Hdown).
    rewrite open_files_calls. simpl calls. now rewrite <- !app_assoc.
Qed.

End MaterializeContinued.

(** ** The further properties on concrete catalogs *)

Import FurtherExamples.

Lemma remove_incomplete_leaves_whole_complete_groups_witness :
  exists d',
    df (self (fst (remove_incomplete has_gpp_and_lai
                     (state_of (catalog_of [] (Some two_models) None) []))))
    = Some d'
    /\ forall k g, In (k, g) (groups_of model_group_columns d') ->
         has_gpp_and_lai g = true /\ g = get_group model_group_columns two_models k.
Proof.
  refine (remove_incomplete_leaves_whole_complete_groups has_gpp_and_lai
            (state_of (catalog_of [] (Some two_models) None) []) two_models
            eq_refl eq_refl _).
  repeat constructor; simpl; intuition discriminate.
Defined.

Lemma remove_incomplete_idempotent_witness :
  remove_incomplete has_gpp_and_lai
    (fst (remove_incomplete has_gpp_and_lai
            (state_of (catalog_of [] (Some two_models) None) [])))
  = (fst (remove_incomplete has_gpp_and_lai
            (state_of (catalog_of [] (Some two_models) None) [])),
     Ok tt).
Proof.
  refine (remove_incomplete_idempotent has_gpp_and_lai
            (state_of (catalog_of [] (Some two_models) None) []) two_models
            eq_refl eq_refl _).
  repeat constructor; simpl; intuition discriminate.
Defined.

Lemma remove_ensembles_keeps_selected_member_witness :
  remove_ensembles (state_of (catalog_of [] (Some three_members) None) [])
  = (with_df (state_of (catalog_of [] (Some three_members) None) [])
       (selected_rows three_members),
     Ok tt).
Proof.
  refine (proj1 (remove_ensembles_keeps_selected_member
                   (state_of (catalog_of [] (Some three_members) None) []) three_members
                   eq_refl eq_refl eq_refl _)).
  repeat constructor; simpl; intuition discriminate.
Defined.

Lemma selected_member_is_least_as_text_witness :
  extracted_leb
    (hd None (sort_values (map extract_member ["r2i1p1f1"; "r10i1p1f1"])))
    (extract_member "r2i1p1f1")
  = true.
Proof.
  assert (Hne : ["r2i1p1f1"; "r10i1p1f1"] <> []) by discriminate.
  destruct (selected_member_is_least_as_text ["r2i1p1f1"; "r10i1p1f1"] Hne)
    as (_ & _ & Hleast & _).
  apply Hleast. simpl. tauto.
Defined.

Lemma remove_ensembles_keeps_every_model_witness :
  exists d' kept,
    df (self (fst (remove_ensembles (state_of (catalog_of [] (Some three_members) None) []))))
    = Some d'
    /\ In kept (rows d')
    /\ cell (columns d') "source_id" kept = "CESM2".
Proof.
  refine (remove_ensembles_keeps_every_model
            (state_of (catalog_of [] (Some three_members) None) []) three_members
            (0, ["CMIP"; "CESM2"; "r2i1p1f1"; "gn"; "gpp"; "v1"; "node-a"; "s0"])
            eq_refl eq_refl eq_refl _ _ _).
  - repeat constructor; simpl; intuition discriminate.
  - simpl. tauto.
  - intros r' Hr' _. simpl in Hr'. destruct Hr' as [<- | [<- | [<- | []]]].
    + exists ("2", "1", "1", "1"). split; [|reflexivity].
      simpl. repeat split; discriminate.
    + exists ("1", "1", "1", "1"). split; [|reflexivity].
      simpl. repeat split; discriminate.
    + exists ("10", "1", "1", "1"). split; [|reflexivity].
      simpl. repeat split; discriminate.
Defined.


Lemma member_id_round_trip_witness :
  extract_member "r01i2p3f4" = Some ("01", "2", "3", "4").
Proof.
  refine (proj1 (member_id_round_trip "01" "2" "3" "4" _ _ _ _));
    (split; [discriminate | reflexivity]).
Defined.

Lemma remove_ensembles_one_member_per_model_witness :
  remove_ensembles (state_of (catalog_of [] (Some two_models) None) [])
  = (state_of (catalog_of [] (Some two_models) None) [], Ok tt)
  /\ cell facet_columns "member_id"
          (0, ["CMIP"; "CESM2"; "r1i1p1f1"; "gn"; "gpp"; "v1"; "node-a"; "s0"])
     = cell facet_columns "member_id"
            (1, ["CMIP"; "CESM2"; "r1i1p1f1"; "gn"; "lai"; "v1"; "node-a"; "s1"]).
Proof.
  split; [vm_compute; reflexivity|].
  apply (remove_ensembles_one_member_per_model
           (state_of (catalog_of [] (Some two_models) None) [])
           (state_of (catalog_of [] (Some two_models) None) [])
           two_models).
  - vm_compute. reflexivity.
  - reflexivity.
  - simpl. tauto.
  - simpl. tauto.
  - reflexivity.
Defined.

Lemma unique_reports_each_facet_witness :
  exists out,
    unique (state_of (catalog_of [] (Some identified) None) [])
    = (state_of (catalog_of [] (Some identified) None) [], Ok out)
    /\ (forall col, (exists values, out_get col out = Some values) <->
                    In col (columns identified) /\ col <> "id" /\ col <> "version")
    /\ (forall col values, out_get col out = Some values ->
          NoDup values
          /\ forall v, In v values <->
                       exists r, In r (rows identified)
                                 /\ cell (columns identified) col r = v).
Proof.
  apply (proj1 (unique_reports_each_facet
                  (state_of (catalog_of [] (Some identified) None) []) identified eq_refl)).
  - simpl. tauto.
  - simpl. tauto.
Defined.

Lemma model_groups_counts_every_record_witness :
  exists out,
    model_groups (state_of (catalog_of [] (Some two_models) None) [])
    = (state_of (catalog_of [] (Some two_models) None) [], Ok out)
    /\ NoDup (map fst out)
    /\ (forall k, In k (map fst out) <->
                  exists r, In r (rows two_models)
                            /\ key_of model_group_columns two_models r = k)
    /\ (forall k n, In (k, n) out ->
          0 < n /\ n = len (get_group model_group_columns two_models k))
    /\ list_sum (map snd out) = len two_models.
Proof.
  exact (model_groups_counts_every_record
           (state_of (catalog_of [] (Some two_models) None) []) two_models
           eq_refl eq_refl eq_refl).
Defined.

Lemma ilamb_complete_spec_witness :
  exists b, Ilamb.complete carbon_cycle = Ok b /\ b = true.
Proof.
  destruct (proj1 (ilamb_complete_spec carbon_cycle) eq_refl) as (b & Hb & Hiff).
  exists b. split; [exact Hb|]. apply Hiff. split.
  - intros v Hv. simpl in Hv.
    destruct Hv as [<- | [<- | [<- | [<- | []]]]]; simpl; tauto.
  - right. simpl. tauto.
Defined.

Lemma search_carries_the_last_table_forward_witness :
  snd (search_loop (indices (self flaky_catalog)) [] None [] flaky_catalog)
  = Ok [one_record; one_record; no_record]
  /\ exists st',
       search env_local [] flaky_catalog = (st', Ok tt)
       /\ df (self st')
          = Some {| columns := facet_columns; rows := [first_record; first_record] |}.
Proof.
  apply (search_carries_the_last_table_forward env_local [] flaky_catalog
           (answering_index one_record)
           [failing_index (ValueError "bad facet"); answering_index no_record]
           one_record
           [Raise (ValueError "bad facet"); Ok no_record]).
  - reflexivity.
  - intros w. exists w. reflexivity.
  - repeat constructor; intros w; exists w; reflexivity.
  - repeat constructor.
  - reflexivity.
Defined.

Lemma data_root_is_searched_and_cache_is_written_witness :
  exists cs,
    calls (fst ((set_esgf_data_root any_dir "/data/esgf" ;;
                 to_dataset_dict env_no_files true IgnoreNone ".") (ready one_record)))
    = (calls (ready one_record) ++ cs)%list
    /\ Forall (uses_roots "/data/esgf" "/home/user/.esgf") cs.
Proof.
  apply (proj1 (data_root_is_searched_and_cache_is_written env_no_files any_dir
                  "/data/esgf" true IgnoreNone "." (ready one_record))).
  reflexivity.
Defined.

Lemma ignoring_a_missing_column_raises_key_error_witness :
  exists key,
    snd (to_dataset_dict env_local true (IgnoreStr "institution_id") "." (ready one_record))
    = Raise (KeyError key)
    /\ calls (fst (to_dataset_dict env_local true (IgnoreStr "institution_id") "."
                     (ready one_record)))
       = calls (ready one_record)
    /\ self (fst (to_dataset_dict env_local true (IgnoreStr "institution_id") "."
                    (ready one_record)))
       = self (ready one_record).
Proof.
  apply (ignoring_a_missing_column_raises_key_error env_local true
           (IgnoreStr "institution_id") "." (ready one_record) one_record
           "institution_id").
  - reflexivity.
  - discriminate.
  - simpl. tauto.
  - simpl. intuition discriminate.
Defined.

Lemma returned_dictionary_covers_every_record_witness :
  NoDup (map fst (returned (to_dataset_dict env_local true IgnoreNone "."
                              (ready two_models))))
  /\ listings (fst (to_dataset_dict env_local true IgnoreNone "." (ready two_models)))
     = listings (ready two_models) + 3.
Proof.
  destruct (returned_dictionary_covers_every_record env_local true IgnoreNone "."
              (ready two_models)
              (fst (to_dataset_dict env_local true IgnoreNone "." (ready two_models)))
              (returned (to_dataset_dict env_local true IgnoreNone "." (ready two_models))))
    as (d & key_format & st1 & Hdf & _ & _ & Hnd & _ & _ & _ & Hl).
  - vm_compute. reflexivity.
  - split; [exact Hnd|]. rewrite Hl. f_equal.
    simpl in Hdf. injection Hdf as <-. reflexivity.
Defined.

Lemma one_record_gets_the_empty_key_witness :
  exists v,
    returned (to_dataset_dict env_local true IgnoreNone "." (ready one_record))
    = [("", v)].
Proof.
  apply (one_record_gets_the_empty_key env_local IgnoreNone "." (ready one_record)
           (fst (to_dataset_dict env_local true IgnoreNone "." (ready one_record)))
           (returned (to_dataset_dict env_local true IgnoreNone "." (ready one_record)))
           one_record first_record).
  - vm_compute. reflexivity.
  - reflexivity.
  - reflexivity.
Defined.

(** A model whose member identifiers carry a prefix loses all its records:
    the pattern is found inside the identifier, and what is formatted from it
    is the identifier of no record. *)
Example remove_ensembles_prefixed_members :
  df (self (fst (remove_ensembles
                   (state_of (catalog_of []
                      (Some {| columns := ["source_id"; "member_id"];
                               rows := [(0, ["CESM2"; "s1960-r1i1p1f1"]);
                                        (1, ["CESM2"; "s1960-r2i1p1f1"])] |})
                      None) []))))
  = Some {| columns := ["source_id"; "member_id"]; rows := [] |}.
Proof. vm_compute. reflexivity. Qed.

Lemma calls_made_for_a_record_witness :
  calls (fst (materialize_row env_local [] "." "/data/esgf" one_record first_record []
                (ready one_record)))
  = [CallPostSearch "esgf-index" "s0";
     CallLocalFilelist "s0" "/data/esgf";
     CallOpenDataset "/data/esgf/s0.nc"].
Proof.
  apply (proj1 (calls_made_for_a_record env_local [] "." "/data/esgf" one_record
                  first_record [] (ready one_record) "esgf-index" tt tt "s0"
                  (Ok ["/data/esgf/s0.nc"]) eq_refl eq_refl eq_refl eq_refl)
               "/data/esgf/s0.nc" [] eq_refl).
Defined.

(** A record whose [member_id] is the text that four NaN format to is the one
    that stays in a model without a matching identifier. *)
Example remove_ensembles_keeps_the_nan_text :
  df (self (fst (remove_ensembles
                   (state_of (catalog_of []
                      (Some {| columns := ["source_id"; "member_id"];
                               rows := [(0, ["CESM2"; "rnanipnanfnan"]);
                                        (1, ["CESM2"; "rnaninanpnanfnan"])] |})
                      None) []))))
  = Some {| columns := ["source_id"; "member_id"];
            rows := [(1, ["CESM2"; "rnaninanpnanfnan"])] |}.
Proof. vm_compute. reflexivity. Qed.

(** Two records with the same key: the entry is the dataset of the later
    one. *)
Example to_dataset_dict_later_record_overwrites :
  snd (to_dataset_dict env_local true IgnoreNone "."
         (ready {| columns := facet_columns;
                   rows := [(0, ["CMIP"; "CESM2"; "r1i1p1f1"; "gn"; "gpp"; "v1"; "node-a"; "s0"]);
                            (1, ["CMIP"; "CESM2"; "r1i1p1f1"; "gn"; "gpp"; "v2"; "node-b"; "s1"])] |}))
  = Ok [("", VDataset "/home/user/.esgf/s1.nc")].
Proof. vm_compute. reflexivity. Qed.
